(** * Gaze: click-to-code for Next.js

    A shallow embedding of the two halves of the package:
    - the runtime ([src/runtime.ts], [src/config.ts]): the location codec
      [parseSourceLocation], the editor dispatch [openInEditor], and the
      highlighting session created by [enableSourceHighlighting];
    - the build-time loader ([turbopackSourceLoader]) that stamps JSX opening
      elements with their source location.

    JavaScript strings are sequences of code units; the model uses Rocq's
    [string], whose units are 8 bits wide (Latin-1), which covers every
    character the code tests for.  Line and column numbers are the parser's
    non-negative integers, modelled as [N] (plus [NaN]); the code holds them
    in doubles, which are exact, and printed in plain decimal, far beyond
    any position in a source file.  Babel's parser and generator, Node's
    [path.relative] and the browser's selector syntax are parameters of the
    functions that call them. *)

From Stdlib Require Import String Ascii List NArith Lia Bool.
From stdpp Require Import gmap strings.
Import ListNotations.
#[local] Set Warnings "-register-all".
Open Scope string_scope.
Open Scope list_scope.

(** ** Strings *)

Module Str.

Definition drop (n : nat) (s : string) : string :=
  substring n (String.length s - n) s.

Definition take (n : nat) (s : string) : string := substring 0 n s.

(** [consumed s t]: the part of [s] in front of its suffix [t]. *)
Definition consumed (s t : string) : string :=
  take (String.length s - String.length t) s.

Fixpoint forallb (p : ascii -> bool) (s : string) : bool :=
  match s with
  | EmptyString => true
  | String c t => p c && forallb p t
  end.

(** [occurs pat s]: [pat] is a substring of [s] ([s.includes(pat)]). *)
Fixpoint occurs (pat s : string) : bool :=
  String.prefix pat s ||
  match s with
  | EmptyString => false
  | String _ t => occurs pat t
  end.

(** [s.replace(pat, rep)] with a string pattern: only the FIRST occurrence
    of [pat] is replaced.  [rep] is inserted literally; JavaScript expands
    dollar patterns in [rep], and the replacements used by the code never
    contain a dollar sign (see [encodeURIComponent_no_dollar]). *)
Fixpoint replace (pat rep s : string) : string :=
  if String.prefix pat s then rep +:+ drop (String.length pat) s
  else match s with
       | EmptyString => EmptyString
       | String c t => String c (replace pat rep t)
       end.

(** [s.replaceAll(pat, rep)] for a non-empty [pat]; the fuel bounds the
    number of characters inspected. *)
Fixpoint replaceAll_fuel (fuel : nat) (pat rep s : string) : string :=
  match fuel with
  | O => s
  | S f =>
      if String.prefix pat s
      then rep +:+ replaceAll_fuel f pat rep (drop (String.length pat) s)
      else match s with
           | EmptyString => EmptyString
           | String c t => String c (replaceAll_fuel f pat rep t)
           end
  end.

Definition replaceAll (pat rep s : string) : string :=
  replaceAll_fuel (S (String.length s)) pat rep s.

End Str.

(** ** Character classes *)

Definition isDigit (c : ascii) : bool :=
  let n := N_of_ascii c in ((48 <=? n) && (n <=? 57))%N.

(** Line terminators, the characters [.] does not match. *)
Definition isLineTerminator (c : ascii) : bool :=
  let n := N_of_ascii c in ((n =? 10) || (n =? 13))%N.

Definition dot (c : ascii) : bool := negb (isLineTerminator c).

(** [\s]: tab, line feed, vertical tab, form feed, carriage return, space,
    no-break space. *)
Definition isSpace (c : ascii) : bool :=
  let n := N_of_ascii c in
  (((9 <=? n) && (n <=? 13)) || (n =? 32) || (n =? 160))%N.

(** Control characters: C0, DEL and C1. *)
Definition isControl (c : ascii) : bool :=
  let n := N_of_ascii c in ((n <? 32) || ((127 <=? n) && (n <=? 159)))%N.

Definition isChar (c : ascii) : ascii -> bool := Ascii.eqb c.

Definition oneOf (cs : string) (c : ascii) : bool :=
  negb (Str.forallb (fun d => negb (Ascii.eqb d c)) cs).

(** ** A backtracking matcher for the regular expressions of the source

    Only the constructs the source uses: character classes, sequence, greedy
    repetition of a class, greedy option, capture groups and the end anchor.
    The matcher is written in continuation-passing style: a greedy construct
    first tries the longest match and falls back when the continuation
    fails, as a JavaScript engine does. *)

Inductive regex : Type :=
| Class (p : ascii -> bool)
| Seq (r1 r2 : regex)
| Star (p : ascii -> bool)
| Opt (r : regex)
| Group (r : regex)
| Eos.

Definition Plus (p : ascii -> bool) : regex := Seq (Class p) (Star p).

Fixpoint Lit (s : string) : regex :=
  match s with
  | EmptyString => Star (fun _ => false)
  | String c EmptyString => Class (isChar c)
  | String c t => Seq (Class (isChar c)) (Lit t)
  end.

(** The result of a match: the unread rest and the captures, in order. *)
Definition MatchResult : Type := string * list string.

Fixpoint many (p : ascii -> bool) (s : string)
    (k : string -> option MatchResult) : option MatchResult :=
  match s with
  | String c t =>
      if p c
      then match many p t k with
           | Some r => Some r
           | None => k s
           end
      else k s
  | EmptyString => k s
  end.

Fixpoint exec (r : regex) (s : string) (caps : list string)
    (k : string -> list string -> option MatchResult) : option MatchResult :=
  match r with
  | Class p =>
      match s with
      | String c t => if p c then k t caps else None
      | EmptyString => None
      end
  | Seq r1 r2 => exec r1 s caps (fun t caps' => exec r2 t caps' k)
  | Star p => many p s (fun t => k t caps)
  | Opt r1 =>
      match exec r1 s caps k with
      | Some x => Some x
      | None => k s caps
      end
  | Group r1 => exec r1 s caps (fun t caps' => k t (caps' ++ [Str.consumed s t]))
  | Eos =>
      match s with
      | EmptyString => k s caps
      | String _ _ => None
      end
  end.

(** A match attempt at the start of [s] (a pattern that begins with [^]). *)
Definition matchStart (r : regex) (s : string) : option MatchResult :=
  exec r s [] (fun t caps => Some (t, caps)).

(** [s.match(r)] for a pattern without [^]: the leftmost start position at
    which the pattern matches. *)
Fixpoint search (r : regex) (s : string) : option MatchResult :=
  match matchStart r s with
  | Some m => Some m
  | None =>
      match s with
      | EmptyString => None
      | String _ t => search r t
      end
  end.

(** ** Numbers

    The numbers the code handles are lines and columns.  [Int n] stands for
    the number [n]; the model is exact for the integers below [2^53], which
    are all doubles.  A larger [n] may be no double at all, and the source
    prints the doubles from [1e21] on in exponent form: statements about the
    value read from, or the text printed for, a number keep it below
    [2^53]. *)

Inductive number : Type :=
| Int (n : N)
| NaN.

Definition safeInteger (n : N) : bool := (n <? 2 ^ 53)%N.

Definition isSafeInteger (x : number) : bool :=
  match x with
  | Int n => safeInteger n
  | NaN => false
  end.

Definition digitChar (d : N) : ascii := ascii_of_N (48 + d).

Definition digitValue (c : ascii) : N := N_of_ascii c - 48.

Fixpoint toDigits (fuel : nat) (n : N) (acc : string) : string :=
  match fuel with
  | O => acc
  | S f =>
      let acc' := String (digitChar (n mod 10)) acc in
      if (n <? 10)%N then acc' else toDigits f (n / 10) acc'
  end.

(** [n.toString()] of an integer below [2^53]: decimal digits, no leading
    zeros.  (So does the source print every double below [1e21]; from there
    on it prints an exponent, which is not modelled.) *)
Definition toString (x : number) : string :=
  match x with
  | Int n => toDigits (S (N.to_nat (N.log2 n))) n ""
  | NaN => "NaN"
  end.

Fixpoint parseDigits (acc : N) (s : string) : N :=
  match s with
  | String c t => if isDigit c then parseDigits (10 * acc + digitValue c) t else acc
  | EmptyString => acc
  end.

(** [parseInt(s, 10)] on a string that starts with a digit: the value of the
    leading run of digits; [NaN] when there is no digit in front.  (Leading
    blanks and a sign, which [parseInt] also accepts, never reach it: its
    arguments are [\d+] captures.)  The value is the number [parseInt]
    returns as long as it is below [2^53]; above, [parseInt] returns the
    double next to it, which is not modelled. *)
Definition parseInt10 (s : string) : number :=
  match s with
  | String c _ => if isDigit c then Int (parseDigits 0 s) else NaN
  | EmptyString => NaN
  end.

(** ** Location codec (runtime.ts) *)

Record SourceLocation : Type := mkLoc {
  file : string;
  line : number;
  column : number;
  raw : string
}.

Definition DEFAULT_ATTRIBUTE : string := "data-insp-path".

(** The token written by the loader: [`${filePath}:${line}:${column}`]. *)
Definition encodeLocation (f : string) (l c : number) : string :=
  f +:+ ":" +:+ toString l +:+ ":" +:+ toString c.

(** [/^(.+):(\d+):(\d+)$/] *)
Definition locationRe : regex :=
  Seq (Group (Plus dot))
   (Seq (Lit ":")
    (Seq (Group (Plus isDigit))
     (Seq (Lit ":")
      (Seq (Group (Plus isDigit)) Eos)))).

Definition parseSourceLocation (sourceString : string) : option SourceLocation :=
  match sourceString with
  | EmptyString => None
  | _ =>
      match matchStart locationRe sourceString with
      | Some (_, [f; l; c]) =>
          Some {| file := f; line := parseInt10 l; column := parseInt10 c;
                  raw := sourceString |}
      | _ => None
      end
  end.

(** ** A small error type for calls that can throw *)

Inductive result (A : Type) : Type :=
| Ok (a : A)
| Throw (error : string).
Arguments Ok {A} a.
Arguments Throw {A} error.

(** ** Editor dispatch (runtime.ts) *)

Record EditorConfig : Type := mkEditor {
  handler : string;
  useAbsolutePath : option bool
}.

(** The [string | EditorConfig] argument of [openInEditor]. *)
Inductive EditorTarget : Type :=
| Preset (name : string)
| Custom (config : EditorConfig).

Definition EDITOR_HANDLERS : list (string * EditorConfig) :=
  [ ("vscode", mkEditor "vscode://file/{file}:{line}:{column}" (Some true));
    ("cursor", mkEditor "cursor://file/{file}:{line}:{column}" (Some true));
    ("webstorm", mkEditor "webstorm://open?file={file}&line={line}&column={column}" (Some true));
    ("idea", mkEditor "idea://open?file={file}&line={line}" (Some true));
    ("sublime", mkEditor "subl://{file}:{line}:{column}" (Some true));
    ("atom", mkEditor "atom://open?url=file://{file}&line={line}&column={column}" (Some true));
    ("phpstorm", mkEditor "phpstorm://open?file={file}&line={line}" (Some true)) ].

Fixpoint assoc {A : Type} (k : string) (l : list (string * A)) : option A :=
  match l with
  | [] => None
  | (k', v) :: r => if String.eqb k k' then Some v else assoc k r
  end.

(** Names every object inherits from [Object.prototype]: looking one of
    them up in [EDITOR_HANDLERS] yields a truthy value that is no editor
    entry and has no [handler]. *)
Definition objectPrototypeKeys : list string :=
  [ "constructor"; "__proto__"; "hasOwnProperty"; "isPrototypeOf";
    "propertyIsEnumerable"; "toLocaleString"; "toString"; "valueOf";
    "__defineGetter__"; "__defineSetter__"; "__lookupGetter__";
    "__lookupSetter__" ].

(** [typeof editorConfig === 'string'
      ? EDITOR_HANDLERS[editorConfig] || EDITOR_HANDLERS.vscode
      : editorConfig]; [None] stands for an inherited member. *)
Definition resolveEditor (editorConfig : EditorTarget) : option EditorConfig :=
  match editorConfig with
  | Preset name =>
      match assoc name EDITOR_HANDLERS with
      | Some c => Some c
      | None =>
          if existsb (String.eqb name) objectPrototypeKeys then None
          else assoc "vscode" EDITOR_HANDLERS
      end
  | Custom c => Some c
  end.

Definition hexDigit (upper : bool) (d : N) : ascii :=
  if (d <? 10)%N then ascii_of_N (48 + d)
  else ascii_of_N ((if upper then 55 else 87) + d).

Definition percent (b : N) : string :=
  String "%" (String (hexDigit true (b / 16)) (String (hexDigit true (b mod 16)) "")).

Definition isAlpha (c : ascii) : bool :=
  let n := N_of_ascii c in
  (((65 <=? n) && (n <=? 90)) || ((97 <=? n) && (n <=? 122)))%N.

Definition uriUnreserved (c : ascii) : bool :=
  isAlpha c || isDigit c || oneOf "-_.!~*'()" c.

(** One code unit of [encodeURIComponent]: unreserved characters stay,
    every other unit is written as the percent-escaped bytes of its UTF-8
    encoding. *)
Definition encodeUnit (c : ascii) : string :=
  let n := N_of_ascii c in
  if uriUnreserved c then String c ""
  else if (n <? 128)%N then percent n
  else percent (192 + n / 64) +:+ percent (128 + n mod 64).

Fixpoint encodeURIComponent (s : string) : string :=
  match s with
  | EmptyString => EmptyString
  | String c t => encodeUnit c +:+ encodeURIComponent t
  end.

(** The URL built by [openInEditor] (the lines under "Build the URL"). *)
Definition buildURI (location : SourceLocation) (config : EditorConfig) : string :=
  let url := handler config in
  let filePath :=
    if negb (match useAbsolutePath config with Some false => true | _ => false end)
    then file location else file location in
  let url := Str.replace "{file}" (encodeURIComponent filePath) url in
  let url := Str.replace "{line}" (toString (line location)) url in
  let url := Str.replace "{column}" (toString (column location)) url in
  url.

(** The URL as the specification words it: every occurrence of each
    placeholder is substituted. *)
Definition specBuildURI (location : SourceLocation) (config : EditorConfig) : string :=
  let url := handler config in
  let url := Str.replaceAll "{file}" (encodeURIComponent (file location)) url in
  let url := Str.replaceAll "{line}" (toString (line location)) url in
  let url := Str.replaceAll "{column}" (toString (column location)) url in
  url.

(** [openInEditor]: the result is the URL handed to [window.open], [None]
    when there is no window; reading [handler] off an inherited member gives
    [undefined], on which [replace] throws. *)
Definition openInEditor (hasWindow : bool) (location : SourceLocation)
    (editorConfig : EditorTarget) : result (option string) :=
  if negb hasWindow then Ok None
  else match resolveEditor editorConfig with
       | Some config => Ok (Some (buildURI location config))
       | None => Throw "TypeError"
       end.

(** ** Highlight configuration (runtime.ts, config.ts) *)

(** A property of an object literal: missing, present with the value
    [undefined], or present with a value. *)
Inductive field (A : Type) : Type :=
| Absent
| Undefined
| Value (a : A).
Arguments Absent {A}.
Arguments Undefined {A}.
Arguments Value {A} a.

Record Styles : Type := mkStyles {
  outline : option string;
  outlineOffset : option string;
  tooltipBackground : option string;
  tooltipColor : option string
}.

Definition noStyles : Styles := mkStyles None None None None.

Record HighlightConfig : Type := mkConfig {
  editor : field EditorTarget;
  attributeName : field string;
  enabledByDefault : field bool;
  tooltipPathDisplay : field string;
  showInstructions : field bool;
  styles : field Styles
}.

(** The empty object literal. *)
Definition emptyConfig : HighlightConfig :=
  mkConfig Absent Absent Absent Absent Absent Absent.

(** One key of [{ ...base, ...over }]: an own property of [over], even an
    [undefined] one, replaces that of [base]. *)
Definition spread {A : Type} (base over : field A) : field A :=
  match over with
  | Absent => base
  | _ => over
  end.

(** [{ ...loaderConfig, ...config }] *)
Definition mergeConfig (loaderConfig config : HighlightConfig) : HighlightConfig :=
  {| editor := spread (editor loaderConfig) (editor config);
     attributeName := spread (attributeName loaderConfig) (attributeName config);
     enabledByDefault := spread (enabledByDefault loaderConfig) (enabledByDefault config);
     tooltipPathDisplay := spread (tooltipPathDisplay loaderConfig) (tooltipPathDisplay config);
     showInstructions := spread (showInstructions loaderConfig) (showInstructions config);
     styles := spread (styles loaderConfig) (styles config) |}.

(** A destructuring default [{ key = d } = obj]: used when the property is
    missing or [undefined]. *)
Definition orDefault {A : Type} (d : A) (f : field A) : A :=
  match f with
  | Value a => a
  | _ => d
  end.

(** [value || d] on an optional string: the empty string is falsy too. *)
Definition orElse (value : option string) (d : string) : string :=
  match value with
  | Some (String c t) => String c t
  | _ => d
  end.

(** The [defaultStyles] object of [enableSourceHighlighting]. *)
Record ResolvedStyles : Type := mkResolved {
  r_outline : string;
  r_outlineOffset : string;
  r_tooltipBackground : string;
  r_tooltipColor : string
}.

Definition defaultStyles (st : Styles) : ResolvedStyles :=
  {| r_outline := orElse (outline st) "2px solid #0066cc";
     r_outlineOffset := orElse (outlineOffset st) "2px";
     r_tooltipBackground := orElse (tooltipBackground st) "rgba(0, 0, 0, 0.9)";
     r_tooltipColor := orElse (tooltipColor st) "white" |}.

(** The styles map as the specification words it: merged key by key, the
    call-time value of a key winning where there is one. *)
Definition specMergeStyles (loaderStyles callStyles : Styles) : Styles :=
  let pick (over base : option string) :=
    match over with
    | Some v => Some v
    | None => base
    end in
  {| outline := pick (outline callStyles) (outline loaderStyles);
     outlineOffset := pick (outlineOffset callStyles) (outlineOffset loaderStyles);
     tooltipBackground := pick (tooltipBackground callStyles) (tooltipBackground loaderStyles);
     tooltipColor := pick (tooltipColor callStyles) (tooltipColor loaderStyles) |}.

(** The styles in effect for a call: [mergedConfig.styles], defaulted. *)
Definition effectiveStyles (loaderConfig config : HighlightConfig) : ResolvedStyles :=
  defaultStyles (orDefault noStyles (styles (mergeConfig loaderConfig config))).

(** ** Display paths (the [getDisplayPath] closure) *)

Definition isSlash : ascii -> bool := oneOf "/\".

(** [/([^/\\]+:\d+:\d+)$/] *)
Definition displayRe : regex :=
  Seq (Group (Seq (Plus (fun c => negb (isSlash c)))
              (Seq (Lit ":") (Seq (Plus isDigit) (Seq (Lit ":") (Plus isDigit))))))
      Eos.

(** [s.split(/[\/\\]/)] *)
Fixpoint split (sep : ascii -> bool) (s : string) : list string :=
  match s with
  | EmptyString => [EmptyString]
  | String c t =>
      if sep c then EmptyString :: split sep t
      else match split sep t with
           | h :: r => String c h :: r
           | [] => [String c EmptyString]
           end
  end.

Definition getDisplayPath (tooltipPathDisplay : string) (fullPath : string) : string :=
  if String.eqb tooltipPathDisplay "relative" then
    match search displayRe fullPath with
    | Some (_, m1 :: _) =>
        let pathParts := split isSlash fullPath in
        if Nat.leb 2 (length pathParts) then
          let fileName := nth (length pathParts - 1) pathParts "" in
          let parentDir := nth (length pathParts - 2) pathParts "" in
          parentDir +:+ "/" +:+ fileName
        else m1
    | _ => fullPath
    end
  else fullPath.

(** ** The page and the highlighting sessions (enableSourceHighlighting)

    Each call of [enableSourceHighlighting] creates one closure, a
    _session_: its constants ([editor], [attributeName], ...) and its mutable
    variables [isEnabled], [styleElement] and [observer].  The page holds what
    the sessions register with the document.  Function objects are known by
    the session that created them: the keydown listener [sid] is that
    session's [keyboardHandler], the click listener [sid] its [clickHandler]
    (assigned once, never null).  Console output is not modelled, and
    [document.body] and [document.head] exist. *)

Record Session : Type := mkSession {
  s_editor : EditorTarget;
  s_attributeName : string;
  s_tooltipPathDisplay : string;
  s_defaultStyles : ResolvedStyles;
  isEnabled : bool;
  styleElement : option nat;
  observer : option nat
}.

Record Page : Type := mkPage {
  (** [window.__GAZE_LOADER_CONFIG__] *)
  loaderConfigSlot : option HighlightConfig;
  (** the elements of the document, each with its attributes *)
  nodes : list (gmap string string);
  (** listeners of [document] for keydown *)
  keydownListeners : list nat;
  (** capturing listeners of [document] for click *)
  clickListeners : list nat;
  (** observing [MutationObserver]s, each with the session it calls back *)
  observers : list (nat * nat);
  (** style elements attached to [document.head], each with the session
      that created it *)
  headStyles : list (nat * nat);
  (** [document.body.classList] *)
  bodyClasses : gset string;
  (** the closures created so far *)
  sessions : list Session;
  (** allocation counter for style elements and observers *)
  nextObject : nat
}.

Definition MARKER_CLASS : string := "turbopack-source-highlight-enabled".
Definition TOOLTIP_ATTRIBUTE : string := "data-tooltip-path".

(** [getGazeConfig] (config.ts) *)
Definition getGazeConfig (p : Page) : HighlightConfig :=
  match loaderConfigSlot p with
  | Some c => c
  | None => emptyConfig
  end.

(** State that survives an exception: a computation returns the page as it
    is when it returns or throws. *)
Definition Eff (A : Type) : Type := Page -> Page * result A.

Definition ret {A : Type} (a : A) : Eff A := fun p => (p, Ok a).

Definition throw {A : Type} (e : string) : Eff A := fun p => (p, Throw e).

Definition bind {A B : Type} (m : Eff A) (f : A -> Eff B) : Eff B :=
  fun p =>
    match m p with
    | (p', Ok a) => f a p'
    | (p', Throw e) => (p', Throw e)
    end.

Definition modify (f : Page -> Page) : Eff unit := fun p => (f p, Ok tt).

Declare Scope eff_scope.
Delimit Scope eff_scope with eff.
Notation "x <- m ;; k" := (bind m (fun x => k))
  (at level 100, m at next level, right associativity) : eff_scope.
Notation "m ;; k" := (bind m (fun _ => k))
  (at level 100, right associativity) : eff_scope.
Open Scope eff_scope.

(** *** DOM primitives *)

(** [addEventListener]: a listener already registered (same function, same
    capture flag) is not added again. *)
Definition addListener (h : nat) (l : list nat) : list nat :=
  if decide (h ∈ l) then l else l ++ [h].

(** [removeEventListener]: nothing happens when it is not registered. *)
Definition removeListener (h : nat) (l : list nat) : list nat :=
  filter (fun x => x ≠ h) l.

Definition setKeydown (f : list nat -> list nat) (p : Page) : Page :=
  mkPage (loaderConfigSlot p) (nodes p) (f (keydownListeners p)) (clickListeners p)
         (observers p) (headStyles p) (bodyClasses p) (sessions p) (nextObject p).

Definition setClick (f : list nat -> list nat) (p : Page) : Page :=
  mkPage (loaderConfigSlot p) (nodes p) (keydownListeners p) (f (clickListeners p))
         (observers p) (headStyles p) (bodyClasses p) (sessions p) (nextObject p).

Definition setObservers (f : list (nat * nat) -> list (nat * nat)) (p : Page) : Page :=
  mkPage (loaderConfigSlot p) (nodes p) (keydownListeners p) (clickListeners p)
         (f (observers p)) (headStyles p) (bodyClasses p) (sessions p) (nextObject p).

Definition setHead (f : list (nat * nat) -> list (nat * nat)) (p : Page) : Page :=
  mkPage (loaderConfigSlot p) (nodes p) (keydownListeners p) (clickListeners p)
         (observers p) (f (headStyles p)) (bodyClasses p) (sessions p) (nextObject p).

Definition setClasses (f : gset string -> gset string) (p : Page) : Page :=
  mkPage (loaderConfigSlot p) (nodes p) (keydownListeners p) (clickListeners p)
         (observers p) (headStyles p) (f (bodyClasses p)) (sessions p) (nextObject p).

Definition setNodes (f : list (gmap string string) -> list (gmap string string))
    (p : Page) : Page :=
  mkPage (loaderConfigSlot p) (f (nodes p)) (keydownListeners p) (clickListeners p)
         (observers p) (headStyles p) (bodyClasses p) (sessions p) (nextObject p).

Definition setSessions (f : list Session -> list Session) (p : Page) : Page :=
  mkPage (loaderConfigSlot p) (nodes p) (keydownListeners p) (clickListeners p)
         (observers p) (headStyles p) (bodyClasses p) (f (sessions p)) (nextObject p).

(** A new object ([document.createElement], [new MutationObserver]). *)
Definition newObject : Eff nat :=
  fun p =>
    (mkPage (loaderConfigSlot p) (nodes p) (keydownListeners p) (clickListeners p)
            (observers p) (headStyles p) (bodyClasses p) (sessions p) (S (nextObject p)),
     Ok (nextObject p)).

(** Reading and writing the variables of closure [sid]. *)
Definition readSession (sid : nat) : Eff Session :=
  fun p =>
    match sessions p !! sid with
    | Some s => (p, Ok s)
    | None => (p, Throw "ReferenceError")
    end.

Definition writeSession (sid : nat) (f : Session -> Session) : Eff unit :=
  modify (setSessions (fun l =>
    match l !! sid with
    | Some s => <[sid := f s]> l
    | None => l
    end)).

Definition setEnabled (b : bool) (s : Session) : Session :=
  mkSession (s_editor s) (s_attributeName s) (s_tooltipPathDisplay s)
            (s_defaultStyles s) b (styleElement s) (observer s).

Definition setStyleElement (e : option nat) (s : Session) : Session :=
  mkSession (s_editor s) (s_attributeName s) (s_tooltipPathDisplay s)
            (s_defaultStyles s) (isEnabled s) e (observer s).

Definition setObserver (o : option nat) (s : Session) : Session :=
  mkSession (s_editor s) (s_attributeName s) (s_tooltipPathDisplay s)
            (s_defaultStyles s) (isEnabled s) (styleElement s) o.

Section Navigator.

(** Whether [[name]] is a valid CSS attribute selector, which is for the
    browser to say: [querySelectorAll] throws a [SyntaxError] otherwise. *)
Variable validSelector : string -> bool.

(** The body of [elements.forEach] in [processElements], for one element
    selected by [[attributeName]:not([data-tooltip-path])]. *)
Definition stamp (s : Session) (el : gmap string string) : gmap string string :=
  match el !! s_attributeName s, el !! TOOLTIP_ATTRIBUTE with
  | Some fullPath, None =>
      match fullPath with
      | EmptyString => el
      | _ => <[TOOLTIP_ATTRIBUTE := getDisplayPath (s_tooltipPathDisplay s) fullPath]> el
      end
  | _, _ => el
  end.

Definition processElements (sid : nat) : Eff unit :=
  s <- readSession sid ;;
  if validSelector (s_attributeName s)
  then modify (setNodes (map (stamp s)))
  else throw "SyntaxError".

Definition createStyles (sid : nat) : Eff unit :=
  s <- readSession sid ;;
  match styleElement s with
  | Some _ => ret tt
  | None =>
      el <- newObject ;;
      writeSession sid (setStyleElement (Some el)) ;;
      modify (setHead (fun l => l ++ [(el, sid)]))
  end.

Definition toggleHighlighting (sid : nat) : Eff unit :=
  s <- readSession sid ;;
  writeSession sid (setEnabled (negb (isEnabled s))) ;;
  if negb (isEnabled s) then
    createStyles sid ;;
    processElements sid ;;
    modify (setClasses (fun c => {[MARKER_CLASS]} ∪ c)) ;;
    modify (setClick (addListener sid)) ;;
    o <- newObject ;;
    writeSession sid (setObserver (Some o)) ;;
    modify (setObservers (fun l => l ++ [(o, sid)]))
  else
    modify (setClasses (fun c => c ∖ {[MARKER_CLASS]})) ;;
    modify (setClick (removeListener sid)) ;;
    s' <- readSession sid ;;
    match observer s' with
    | Some o =>
        modify (setObservers (filter (fun x => x.1 ≠ o))) ;;
        writeSession sid (setObserver None)
    | None => ret tt
    end.

Definition keyboardHandler (sid : nat) (shiftKey : bool) (key : string) : Eff unit :=
  if shiftKey && String.eqb key "Z" then toggleHighlighting sid else ret tt.

(** The function returned by [enableSourceHighlighting]. *)
Inductive Cleanup : Type :=
| NoCleanup
| SessionCleanup (sid : nat).

Definition cleanup (c : Cleanup) : Eff unit :=
  match c with
  | NoCleanup => ret tt
  | SessionCleanup sid =>
      modify (setKeydown (removeListener sid)) ;;
      modify (setClick (removeListener sid)) ;;
      s <- readSession sid ;;
      match styleElement s with
      | Some el => modify (setHead (filter (fun x => x.1 ≠ el)))
      | None => ret tt
      end ;;
      match observer s with
      | Some o => modify (setObservers (filter (fun x => x.1 ≠ o)))
      | None => ret tt
      end ;;
      modify (setClasses (fun c => c ∖ {[MARKER_CLASS]}))
  end.

(** [enableSourceHighlighting] where a document exists. *)
Definition activate (config : HighlightConfig) : Eff Cleanup :=
  fun p =>
    let loaderConfig := getGazeConfig p in
    let mergedConfig := mergeConfig loaderConfig config in
    let sid := length (sessions p) in
    let s :=
      {| s_editor := orDefault (Preset "vscode") (editor mergedConfig);
         s_attributeName := orDefault DEFAULT_ATTRIBUTE (attributeName mergedConfig);
         s_tooltipPathDisplay := orDefault "absolute" (tooltipPathDisplay mergedConfig);
         s_defaultStyles := defaultStyles (orDefault noStyles (styles mergedConfig));
         isEnabled := orDefault false (enabledByDefault mergedConfig);
         styleElement := None;
         observer := None |} in
    (modify (setSessions (fun l => l ++ [s])) ;;
     modify (setKeydown (addListener sid)) ;;
     (if orDefault false (enabledByDefault mergedConfig)
      then toggleHighlighting sid else ret tt) ;;
     ret (SessionCleanup sid)) p.

(** [enableSourceHighlighting]; [None] is a context without a document. *)
Definition enableSourceHighlighting (config : HighlightConfig)
    (document : option Page) : option Page * result Cleanup :=
  match document with
  | None => (None, Ok NoCleanup)
  | Some p => let (p', c) := activate config p in (Some p', c)
  end.

(** *** What happens on a page *)

Inductive Event : Type :=
| Activate (config : HighlightConfig)
| KeyDown (shiftKey : bool) (key : string)
| RunCleanup (c : Cleanup)
| Insert (el : gmap string string).

(** The listeners present when the dispatch starts are called in order; an
    exception in one is reported and the next one runs. *)
Definition dispatchKeyDown (shiftKey : bool) (key : string) (p : Page) : Page :=
  fold_left (fun q sid => (keyboardHandler sid shiftKey key q).1) (keydownListeners p) p.

Definition notifyObservers (p : Page) : Page :=
  fold_left (fun q o => (processElements o.2 q).1) (observers p) p.

Definition step (e : Event) (p : Page) : Page :=
  match e with
  | Activate config => (activate config p).1
  | KeyDown shiftKey key => dispatchKeyDown shiftKey key p
  | RunCleanup c => (cleanup c p).1
  | Insert el => notifyObservers (setNodes (fun l => l ++ [el]) p)
  end.

Definition run (trace : list Event) (p : Page) : Page :=
  fold_left (fun q e => step e q) trace p.

End Navigator.

(** A page on which nothing has run yet. *)
Definition freshPage (slot : option HighlightConfig) (els : list (gmap string string)) : Page :=
  mkPage slot els [] [] [] [] ∅ [] 0.

(** *** Notions used to state what the sessions guarantee *)

(** The observers, or style elements, that belong to session [sid]. *)
Definition ownedBy (sid : nat) (l : list (nat * nat)) : list (nat * nat) :=
  filter (fun x => x.2 = sid) l.

(** How often listener [sid] is registered. *)
Definition occurrences (sid : nat) (l : list nat) : nat :=
  length (filter (fun x => x = sid) l).

Definition isActivate (e : Event) : bool :=
  match e with
  | Activate _ => true
  | _ => false
  end.

(** What the sessions have registered is consistent with their variables:
    no listener, observer or style element is there twice, each belongs to
    an existing session, an observer is the one its session refers to and
    that session is enabled, a style element is the one its session refers
    to, and objects are older than the allocation counter. *)
Record Inv (p : Page) : Prop := mkInv {
  inv_keydown : NoDup (keydownListeners p);
  inv_click : NoDup (clickListeners p);
  inv_observers : NoDup (observers p).*1;
  inv_head : NoDup (headStyles p).*1;
  inv_keydown_sid : forall h, h ∈ keydownListeners p -> h < length (sessions p);
  inv_click_sid : forall h, h ∈ clickListeners p -> h < length (sessions p);
  inv_observer_owner : forall o sid, (o, sid) ∈ observers p ->
    o < nextObject p /\
    exists s, sessions p !! sid = Some s /\ observer s = Some o /\ isEnabled s = true;
  inv_head_owner : forall e sid, (e, sid) ∈ headStyles p ->
    e < nextObject p /\
    exists s, sessions p !! sid = Some s /\ styleElement s = Some e
}.

(** The steps of the symbolic execution of a session's code. *)
Definition withSession (sid : nat) (s : Session) (p : Page) : Page :=
  setSessions (fun l => <[sid := s]> l) p.

Definition bump (p : Page) : Page :=
  mkPage (loaderConfigSlot p) (nodes p) (keydownListeners p) (clickListeners p)
         (observers p) (headStyles p) (bodyClasses p) (sessions p) (S (nextObject p)).

(** The session a call creates, and the page once it is registered. *)
Definition sessionOf (config : HighlightConfig) (p : Page) : Session :=
  let mergedConfig := mergeConfig (getGazeConfig p) config in
  {| s_editor := orDefault (Preset "vscode") (editor mergedConfig);
     s_attributeName := orDefault DEFAULT_ATTRIBUTE (attributeName mergedConfig);
     s_tooltipPathDisplay := orDefault "absolute" (tooltipPathDisplay mergedConfig);
     s_defaultStyles := defaultStyles (orDefault noStyles (styles mergedConfig));
     isEnabled := orDefault false (enabledByDefault mergedConfig);
     styleElement := None;
     observer := None |}.

Definition registered (config : HighlightConfig) (p : Page) : Page :=
  setKeydown (addListener (length (sessions p)))
    (setSessions (fun l => l ++ [sessionOf config p]) p).

(** The page after the cleanup of session [sid], whose variables are [s]. *)
Definition cleaned (sid : nat) (s : Session) (p : Page) : Page :=
  setClasses (fun c => c ∖ {[MARKER_CLASS]})
    (setObservers (match observer s with
                   | Some o => filter (fun x => x.1 ≠ o)
                   | None => fun l => l
                   end)
      (setHead (match styleElement s with
                | Some el => filter (fun x => x.1 ≠ el)
                | None => fun l => l
                end)
         (setClick (removeListener sid) (setKeydown (removeListener sid) p)))).

(** A browser that takes every attribute name for a valid selector. *)
Definition anySelector (name : string) : bool := true.

(** *** Notions used to reason about the matcher *)

(** [:(\d+):(\d+)$], what follows the file in [locationRe]. *)
Definition tailRe : regex :=
  Seq (Lit ":") (Seq (Group (Plus isDigit)) (Seq (Lit ":") (Seq (Group (Plus isDigit)) Eos))).

(** A repetition of [p] cannot go on into [v]. *)
Definition stops (p : ascii -> bool) (v : string) : Prop :=
  match v with
  | EmptyString => True
  | String c _ => p c = false
  end.

(** [t] is what is left of [s] after some characters. *)
Definition suffix_of (t s : string) : Prop := exists u, s = u +:+ t.

Definition noControl (c : ascii) : bool := negb (isControl c).

(** ** The loader (turbopackSourceLoader) *)

Module Loader.

(** *** Options *)

Inductive PathDisplay : Type := absolute | relative.

(** A property value as [JSON.stringify] meets it: a string, a boolean, or
    any other value, of which only the JSON text matters here. *)
Inductive PropertyValue : Type :=
| StringValue (s : string)
| BooleanValue (b : bool)
| OtherValue (json : string).

(** The [editor] option: a preset name or an object.  The loader does
    nothing with an object but print it, so an object is known by what
    [JSON.stringify] prints of it: its own enumerable properties whose value
    is not [undefined], in the order in which they are enumerated (the order
    they were written in).  The schema wants a string [handler] among them,
    a boolean [useAbsolutePath] if there is one, and lets every other
    property through. *)
Inductive EditorOption : Type :=
| EditorName (name : string)
| EditorObject (members : list (string * PropertyValue)).

(** The [runtime] option.  [styles], like an editor object, is known by the
    properties [JSON.stringify] prints, in their order; the schema wants the
    four named ones to be strings and lets every other property through. *)
Record RuntimeOptions : Type := mkRuntime {
  autoInject : option bool;
  editor : option EditorOption;
  enabledByDefault : option bool;
  showInstructions : option bool;
  tooltipPathDisplay : option PathDisplay;
  styles : option (list (string * PropertyValue))
}.

Record LoaderOptions : Type := mkOptions {
  production : option bool;
  attributeName : option string;
  useRelativePaths : option bool;
  rootDir : option string;
  injectReactSource : option bool;
  runtime : option RuntimeOptions
}.

Definition noOptions : LoaderOptions := mkOptions None None None None None None.

(** [this.getOptions ? this.getOptions() : this.query || {}] *)
Inductive RawOptions : Type :=
| QueryString (query : string)
| OptionsObject (options : LoaderOptions).

(** [process.env.NODE_ENV] and [process.cwd()]. *)
Record Process : Type := mkProcess {
  NODE_ENV : option string;
  cwd : string
}.

(** *** The syntax tree, as far as the visitor looks at it *)

Inductive JSXName : Type :=
| JSXIdentifier (name : string)
| JSXNamespacedName (namespace name : string).

Inductive Expression : Type :=
| StringLiteral (value : string)
| NumericLiteral (value : N)
| ObjectExpression (properties : list (string * Expression))
| JSXExpressionContainer (expression : Expression)
| OtherExpression (code : string).

Inductive JSXAttr : Type :=
| JSXAttribute (name : JSXName) (value : option Expression)
| JSXSpreadAttribute (argument : Expression).

(** [loc] holds [node.loc.start], line and column. *)
Record JSXOpeningElement : Type := mkOpening {
  tag : string;
  attributes : list JSXAttr;
  loc : option (N * N)
}.

(** A node is a JSX opening element, with the nodes nested in its
    attributes, or any other node, with its children; [data] stands for
    whatever else the parser keeps in a node. *)
Inductive Node : Type :=
| JSXOpening (el : JSXOpeningElement) (inner : list Node)
| Other (type : string) (data : string) (children : list Node).

(** [traverse(ast, { JSXOpeningElement(path) { ... } })] *)
Fixpoint traverse (visit : JSXOpeningElement -> JSXOpeningElement) (n : Node) : Node :=
  match n with
  | JSXOpening el inner => JSXOpening (visit el) (map (traverse visit) inner)
  | Other ty d children => Other ty d (map (traverse visit) children)
  end.

(** The opening elements of a tree, in the order they are visited. *)
Fixpoint openings (n : Node) : list JSXOpeningElement :=
  match n with
  | JSXOpening el inner => el :: flat_map openings inner
  | Other _ _ children => flat_map openings children
  end.

(** [t.isJSXAttribute(attr) && t.isJSXIdentifier(attr.name)
     && attr.name.name === name] *)
Definition isNamed (name : string) (attr : JSXAttr) : bool :=
  match attr with
  | JSXAttribute (JSXIdentifier n) _ => String.eqb n name
  | _ => false
  end.

(** [process.env.NODE_ENV === 'production'] *)
Definition isProduction (process : Process) : bool :=
  match NODE_ENV process with
  | Some env => String.eqb env "production"
  | None => false
  end.

(** The same element at another position of the text. *)
Definition relocate (pos : N * N) (node : JSXOpeningElement) : JSXOpeningElement :=
  mkOpening (tag node) (attributes node) (Some pos).

Definition truthy (s : string) : bool :=
  match s with
  | EmptyString => false
  | _ => true
  end.

(** *** JSON.stringify of the runtime configuration *)

Definition dquote : ascii := "034"%char.
Definition nl : string := String "010"%char EmptyString.

Definition jsonEscape (c : ascii) : string :=
  let n := N_of_ascii c in
  if (n =? 34)%N then String "\" (String dquote "")
  else if (n =? 92)%N then "\\"
  else if (n =? 8)%N then "\b"
  else if (n =? 12)%N then "\f"
  else if (n =? 10)%N then "\n"
  else if (n =? 13)%N then "\r"
  else if (n =? 9)%N then "\t"
  else if (n <? 32)%N
       then "\u00" +:+ String (hexDigit false (n / 16)) (String (hexDigit false (n mod 16)) "")
  else String c "".

Fixpoint jsonEscapes (s : string) : string :=
  match s with
  | EmptyString => EmptyString
  | String c t => jsonEscape c +:+ jsonEscapes t
  end.

Definition jsonString (s : string) : string :=
  String dquote (jsonEscapes s +:+ String dquote "").

Definition jsonBool (b : bool) : string := if b then "true" else "false".

Fixpoint joinComma (l : list string) : string :=
  match l with
  | [] => EmptyString
  | [x] => x
  | x :: r => x +:+ "," +:+ joinComma r
  end.

Definition jsonObject (members : list (string * string)) : string :=
  "{" +:+ joinComma (map (fun kv => jsonString kv.1 +:+ ":" +:+ kv.2) members) +:+ "}".

Definition jsonValue (v : PropertyValue) : string :=
  match v with
  | StringValue s => jsonString s
  | BooleanValue b => jsonBool b
  | OtherValue json => json
  end.

Definition jsonEditor (e : EditorOption) : string :=
  match e with
  | EditorName name => jsonString name
  | EditorObject members => jsonObject (map (fun kv => (kv.1, jsonValue kv.2)) members)
  end.

Definition jsonPathDisplay (d : PathDisplay) : string :=
  match d with
  | absolute => jsonString "absolute"
  | relative => jsonString "relative"
  end.

(** [runtime.editor || 'vscode']: the empty preset name is falsy. *)
Definition editorOrDefault (e : option EditorOption) : EditorOption :=
  match e with
  | Some (EditorName EmptyString) | None => EditorName "vscode"
  | Some e' => e'
  end.

(** The object literal handed to [JSON.stringify]. *)
Definition runtimeJSON (rt : RuntimeOptions) : string :=
  jsonObject
    [ ("editor", jsonEditor (editorOrDefault (editor rt)));
      ("enabledByDefault", jsonBool (default false (enabledByDefault rt)));
      ("tooltipPathDisplay", jsonPathDisplay (default absolute (tooltipPathDisplay rt)));
      ("showInstructions",
        jsonBool (negb (match showInstructions rt with Some false => true | _ => false end)));
      ("styles", jsonObject (map (fun kv => (kv.1, jsonValue kv.2))
                                 (default [] (styles rt)))) ].

Definition configScript (rt : RuntimeOptions) : string :=
  nl +:+ "if (typeof window !== 'undefined' && !window.__GAZE_LOADER_CONFIG__) {" +:+ nl
  +:+ "  window.__GAZE_LOADER_CONFIG__ = " +:+ runtimeJSON rt +:+ ";" +:+ nl
  +:+ "}" +:+ nl.

Definition isQuote (c : ascii) : bool := Ascii.eqb c "'" || Ascii.eqb c dquote.

(** [/^(\s*['"]use client['"];?\s*\n)/] *)
Definition useClientRe : regex :=
  Group (Seq (Star isSpace)
        (Seq (Class isQuote)
        (Seq (Lit "use client")
        (Seq (Class isQuote)
        (Seq (Opt (Class (isChar ";")))
        (Seq (Star isSpace) (Class (isChar "010"%char)))))))).

(** The insertion of the configuration snippet into the generated code. *)
Definition injectConfig (rt : RuntimeOptions) (code : string) : string :=
  match matchStart useClientRe code with
  | Some (rest, _) =>
      let useClient := Str.consumed code rest in
      useClient +:+ configScript rt +:+ Str.drop (String.length useClient) code
  | None => configScript rt +:+ code
  end.

Section WithBabel.

(** The Babel parser and generator, and Node's [path.relative].  [parse]
    and [generate] return [None] when they throw. *)
Variable parse : string -> option Node.
Variable generate : Node -> option string.
Variable pathRelative : string -> string -> string.

(** The [JSXOpeningElement] visitor. *)
Definition visitor (filename : string) (attributeName : string)
    (useRelativePaths : bool) (rootDir : string) (injectReactSource : bool)
    (node : JSXOpeningElement) : JSXOpeningElement :=
  match loc node with
  | None => node
  | Some (line, column) =>
      let filePath :=
        if useRelativePaths then pathRelative rootDir filename else filename in
      let sourceLocation := encodeLocation filePath (Int line) (Int column) in
      let hasAttribute := existsb (isNamed attributeName) (attributes node) in
      let attributes1 :=
        if negb hasAttribute && truthy sourceLocation
        then attributes node ++
             [JSXAttribute (JSXIdentifier attributeName)
                           (Some (StringLiteral sourceLocation))]
        else attributes node in
      let attributes2 :=
        if injectReactSource then
          let hasReactSource := existsb (isNamed "__source") attributes1 in
          if negb hasReactSource
          then attributes1 ++
               [JSXAttribute (JSXIdentifier "__source")
                  (Some (JSXExpressionContainer (ObjectExpression
                     [ ("fileName", StringLiteral filePath);
                       ("lineNumber", NumericLiteral line);
                       ("columnNumber", NumericLiteral column) ])))]
          else attributes1
        else attributes1 in
      mkOpening (tag node) attributes2 (loc node)
  end.

(** [turbopackSourceLoader]; [resourcePath] is [this.resourcePath].
    [validate] accepts every value of type [LoaderOptions]. *)
Definition turbopackSourceLoader (process : Process) (rawOptions : RawOptions)
    (resourcePath : string) (source : string) : string :=
  let options :=
    match rawOptions with
    | QueryString _ => noOptions
    | OptionsObject o => o
    end in
  let isProduction := isProduction process in
  if isProduction && negb (default false (production options)) then source
  else
    let attributeName := default "data-insp-path" (attributeName options) in
    let useRelativePaths := default false (useRelativePaths options) in
    let rootDir := default (cwd process) (rootDir options) in
    let injectReactSource := default false (injectReactSource options) in
    let filename := resourcePath in
    match parse source with
    | None => source
    | Some ast =>
        let ast' :=
          traverse (visitor filename attributeName useRelativePaths rootDir
                            injectReactSource) ast in
        match generate ast' with
        | None => source
        | Some code =>
            match runtime options with
            | Some rt => if negb isProduction then injectConfig rt code else code
            | None => code
            end
        end
    end.

End WithBabel.

(** *** A stand-in for Babel on files without markup

    The whole file is kept as one opaque statement and printed back as it
    was read; the empty file is the empty program. *)





Definition noRelative (rootDir filename : string) : string := filename.



End Loader.


(** ** Reading locations off the document (runtime.ts) *)

(** A DOM element as the navigation code sees it: its attributes and its
    [parentElement]. *)
Inductive Element : Type :=
| mkElement (attrs : gmap string string) (parentElement : option Element).

Definition attrs (e : Element) : gmap string string :=
  match e with
  | mkElement a _ => a
  end.

Definition parentElement (e : Element) : option Element :=
  match e with
  | mkElement _ p => p
  end.

(** The element and its ancestors, nearest first. *)
Fixpoint ancestry (e : Element) : list (gmap string string) :=
  match e with
  | mkElement a None => [a]
  | mkElement a (Some p) => a :: ancestry p
  end.

(** [getElementSourceLocation]; [getAttribute] gives [null] for a missing
    attribute, and [null] and the empty string are both falsy. *)
Definition getElementSourceLocation (element : gmap string string)
    (attributeName : string) : option SourceLocation :=
  match element !! attributeName with
  | Some (String c t) => parseSourceLocation (String c t)
  | _ => None
  end.

(** [findNearestSourceLocation]: the loop over [current.parentElement]. *)
Fixpoint findNearestSourceLocation (element : Element) (attributeName : string)
    : option SourceLocation :=
  match element with
  | mkElement a parent =>
      match getElementSourceLocation a attributeName with
      | Some location => Some location
      | None =>
          match parent with
          | Some p => findNearestSourceLocation p attributeName
          | None => None
          end
      end
  end.

(** What a click handler did to the event and to the window: [opened] is
    the URL handed to [window.open]; [thrown] is the exception it ended
    with. *)
Record ClickOutcome : Type := mkOutcome {
  defaultPrevented : bool;
  propagationStopped : bool;
  opened : option string;
  thrown : option string
}.


(** The [clickHandler] closure of a session, applied to an event whose
    [target] is [target]. *)
Definition clickHandler (hasWindow : bool) (s : Session) (target : Element)
    : ClickOutcome :=
  if negb (isEnabled s) then mkOutcome false false None None
  else
    match findNearestSourceLocation target (s_attributeName s) with
    | Some location =>
        match openInEditor hasWindow location (s_editor s) with
        | Ok url => mkOutcome true true url None
        | Throw e => mkOutcome true true None (Some e)
        end
    | None => mkOutcome false false None None
    end.

(** [getAllElementsWithSource]: [document] is [None] where there is none;
    [querySelectorAll] throws on an invalid selector and selects the elements
    that have the attribute, whatever its value. *)
Definition getAllElementsWithSource (validSelector : string -> bool)
    (document : option Page) (attributeName : string)
    : result (list (gmap string string * SourceLocation)) :=
  match document with
  | None => Ok []
  | Some p =>
      if validSelector attributeName then
        Ok (flat_map (fun element =>
                        match element !! attributeName with
                        | Some _ =>
                            match getElementSourceLocation element attributeName with
                            | Some location => [(element, location)]
                            | None => []
                            end
                        | None => []
                        end)
                     (nodes p))
      else Throw "SyntaxError"
  end.

(** *** Locations of components ([getComponentSourceLocation]) *)

(** [component._debugInfo]: every field may be missing. *)
Record DebugInfo : Type := mkDebugInfo {
  di_fileName : option string;
  di_lineNumber : option number;
  di_columnNumber : option number
}.

(** [component._debugSource], React's [__source]: file and line are there. *)
Record DebugSource : Type := mkDebugSource {
  fileName : string;
  lineNumber : number;
  columnNumber : option number
}.

Record Component : Type := mkComponent {
  _debugInfo : option DebugInfo;
  _debugSource : option DebugSource;
  _hostNode : option (gmap string string)
}.

(** A number is falsy when it is zero or [NaN]. *)
Definition numberTruthy (x : number) : bool :=
  match x with
  | Int 0 | NaN => false
  | Int _ => true
  end.

(** [columnNumber || 0] *)
Definition columnOrZero (c : option number) : number :=
  match c with
  | Some x => if numberTruthy x then x else Int 0
  | None => Int 0
  end.

Definition getComponentSourceLocation (component : Component) : option SourceLocation :=
  let fromSource :=
    match _debugSource component with
    | Some src =>
        Some {| file := fileName src;
                line := lineNumber src;
                column := columnOrZero (columnNumber src);
                raw := encodeLocation (fileName src) (lineNumber src)
                         (columnOrZero (columnNumber src)) |}
    | None =>
        match _hostNode component with
        | Some node => getElementSourceLocation node DEFAULT_ATTRIBUTE
        | None => None
        end
    end in
  match _debugInfo component with
  | Some debugInfo =>
      match di_fileName debugInfo, di_lineNumber debugInfo with
      | Some (String c t), Some l =>
          if numberTruthy l then
            Some {| file := String c t;
                    line := l;
                    column := columnOrZero (di_columnNumber debugInfo);
                    raw := encodeLocation (String c t) l
                             (columnOrZero (di_columnNumber debugInfo)) |}
          else fromSource
      | _, _ => fromSource
      end
  | None => fromSource
  end.

(** ** The auto-injection script (auto-inject.ts)

    [window.__TURBOPACK_SOURCE_CONFIG__], and the object literal the script
    hands to [enableSourceHighlighting]. *)

Record TurbopackSourceConfig : Type := mkTurbopackConfig {
  tc_editor : option EditorTarget;
  tc_enabledByDefault : option bool;
  tc_attributeName : option string;
  tc_styles : option Styles
}.

(** [config.editor || 'vscode']: the empty preset name is falsy. *)
Definition editorOrVscode (e : option EditorTarget) : EditorTarget :=
  match e with
  | Some (Preset EmptyString) | None => Preset "vscode"
  | Some e' => e'
  end.

Definition autoInjectConfig (global : option TurbopackSourceConfig) : HighlightConfig :=
  let editorOf (c : TurbopackSourceConfig) := editorOrVscode (tc_editor c) in
  let nameOf (c : TurbopackSourceConfig) :=
    match tc_attributeName c with
    | Some (String a t) => String a t
    | _ => "data-insp-path"
    end in
  match global with
  | Some c =>
      {| editor := Value (editorOf c);
         attributeName := Value (nameOf c);
         enabledByDefault := Value (default false (tc_enabledByDefault c));
         tooltipPathDisplay := Absent;
         showInstructions := Absent;
         styles := Value (default noStyles (tc_styles c)) |}
  | None =>
      {| editor := Value (Preset "vscode");
         attributeName := Value "data-insp-path";
         enabledByDefault := Value false;
         tooltipPathDisplay := Absent;
         showInstructions := Absent;
         styles := Value noStyles |}
  end.

(** ** Notions used to state the further properties *)

(** The characters [encodeURIComponent] can produce. *)
Definition uriSafe (c : ascii) : bool :=
  uriUnreserved c || Ascii.eqb c "%".

(** [c] does not occur in [s]. *)
Definition lacks (c : ascii) (s : string) : bool :=
  Str.forallb (fun d => negb (Ascii.eqb d c)) s.

Definition noSlash (s : string) : bool := Str.forallb (fun c => negb (isSlash c)) s.

(** The attributes named [name] among [l]. *)
Definition named (name : string) (l : list Loader.JSXAttr) : list Loader.JSXAttr :=
  List.filter (Loader.isNamed name) l.








(** ** The states of a session

    The page once [toggleHighlighting] has switched session [sid], whose
    variables were [s], off. *)
Definition switchedOff (sid : nat) (s : Session) (p : Page) : Page :=
  mkPage (loaderConfigSlot p) (nodes p) (keydownListeners p)
    (removeListener sid (clickListeners p))
    (match observer s with
     | Some o => filter (fun x => x.1 ≠ o) (observers p)
     | None => observers p
     end)
    (headStyles p) (bodyClasses p ∖ {[MARKER_CLASS]})
    (<[sid := mkSession (s_editor s) (s_attributeName s) (s_tooltipPathDisplay s)
                (s_defaultStyles s) false (styleElement s) None]> (sessions p))
    (nextObject p).

(** The style element of the session after [createStyles], and the
    allocation counter then. *)
Definition styleOf (s : Session) (p : Page) : nat * nat :=
  match styleElement s with
  | Some e => (e, nextObject p)
  | None => (nextObject p, S (nextObject p))
  end.

(** The page once [isEnabled] is set and [createStyles] has run. *)
Definition styled (sid : nat) (s : Session) (p : Page) : Page :=
  mkPage (loaderConfigSlot p) (nodes p) (keydownListeners p) (clickListeners p)
    (observers p)
    (match styleElement s with
     | Some _ => headStyles p
     | None => headStyles p ++ [(nextObject p, sid)]
     end)
    (bodyClasses p)
    (<[sid := mkSession (s_editor s) (s_attributeName s) (s_tooltipPathDisplay s)
                (s_defaultStyles s) true (Some (styleOf s p).1) (observer s)]> (sessions p))
    (styleOf s p).2.

(** The page once [toggleHighlighting] has switched the session on. *)
Definition switchedOn (sid : nat) (s : Session) (p : Page) : Page :=
  mkPage (loaderConfigSlot p) (map (stamp s) (nodes p)) (keydownListeners p)
    (addListener sid (clickListeners p))
    (observers p ++ [((styleOf s p).2, sid)])
    (headStyles (styled sid s p))
    ({[MARKER_CLASS]} ∪ bodyClasses p)
    (<[sid := mkSession (s_editor s) (s_attributeName s) (s_tooltipPathDisplay s)
                (s_defaultStyles s) true (Some (styleOf s p).1)
                (Some (styleOf s p).2)]> (sessions p))
    (S (styleOf s p).2).

(** ** Clicks

    [document]'s capturing click listeners are called in order, one per
    session that registered its [clickHandler]; [stopPropagation] does not
    keep the other listeners of [document] from running. A listener of a
    closure that does not exist is not modelled to run. *)
Definition dispatchClick (hasWindow : bool) (target : Element) (p : Page)
    : list ClickOutcome :=
  flat_map (fun sid =>
              match sessions p !! sid with
              | Some s => [clickHandler hasWindow s target]
              | None => []
              end)
           (clickListeners p).

(** Every registered click listener belongs to a session whose
    [isEnabled] is set. *)
Definition ClickOn (p : Page) : Prop :=
  forall sid, sid ∈ clickListeners p ->
    exists s, sessions p !! sid = Some s /\ isEnabled s = true.

(** What [clickHandler] does once its guard on [isEnabled] is passed. *)
Definition opening (hasWindow : bool) (s : Session) (target : Element) : ClickOutcome :=
  match findNearestSourceLocation target (s_attributeName s) with
  | Some location =>
      match openInEditor hasWindow location (s_editor s) with
      | Ok url => mkOutcome true true url None
      | Throw e => mkOutcome true true None (Some e)
      end
  | None => mkOutcome false false None None
  end.

(** [n] presses of Shift+Z, as session [sid] hears them. *)
Fixpoint presses (validSelector : string -> bool) (sid : nat) (n : nat) (p : Page) : Page :=
  match n with
  | 0 => p
  | S m => (keyboardHandler validSelector sid true "Z" (presses validSelector sid m p)).1
  end.

(** The [enabledByDefault] a call of [enableSourceHighlighting] works with:
    the caller's, else the loader's, else [false]. *)
Definition mergedEnabledByDefault (config : HighlightConfig) (p : Page) : bool :=
  orDefault false (enabledByDefault (mergeConfig (getGazeConfig p) config)).

(** The [showInstructions] a call of [enableSourceHighlighting] tests before
    it writes to the console, and the one of
    [window.__GAZE_LOADER_CONFIG__]. *)
Definition mergedShowInstructions (config : HighlightConfig) (p : Page) : field bool :=
  showInstructions (mergeConfig (getGazeConfig p) config).

Definition loaderShowInstructions (p : Page) : field bool :=
  showInstructions (getGazeConfig p).

(** The [tooltipPathDisplay] of [window.__GAZE_LOADER_CONFIG__], defaulted. *)
Definition loaderTooltipPathDisplay (p : Page) : string :=
  orDefault "absolute" (tooltipPathDisplay (getGazeConfig p)).


(** [:\d+:\d+], what follows the name in [displayRe]. *)
Definition positionRe : regex :=
  Seq (Lit ":") (Seq (Plus isDigit) (Seq (Lit ":") (Plus isDigit))).

(** The last character of a string. *)
Fixpoint lastChar (s : string) : option ascii :=
  match s with
  | EmptyString => None
  | String c EmptyString => Some c
  | String _ t => lastChar t
  end.

(** A directory prefix: nothing, or something that ends in a separator. *)
Definition isDirectory (dir : string) : bool :=
  match lastChar dir with
  | None => true
  | Some c => isSlash c
  end.

(** Every element with a non-empty attribute [name] has a tooltip. *)
Definition Tooltipped (name : string) (p : Page) : Prop :=
  forall x c t, x ∈ nodes p -> x !! name = Some (String c t) ->
    is_Some (x !! TOOLTIP_ATTRIBUTE).

(** * Facts about strings *)

Lemma append_cons (c : ascii) (s t : string) : String c s +:+ t = String c (s +:+ t).
Proof. reflexivity. Qed.

Lemma append_nil_l (s : string) : "" +:+ s = s.
Proof. reflexivity. Qed.

Ltac str_simpl := rewrite ?append_cons, ?append_nil_l in *; simpl in *.

Ltac str_norm := repeat (rewrite append_cons || rewrite append_nil_l).

Lemma append_nil_r (s : string) : s +:+ "" = s.
Proof. induction s as [|c s IH]; str_simpl; [reflexivity | now rewrite IH]. Qed.

Lemma append_assoc (a b c : string) : (a +:+ b) +:+ c = a +:+ (b +:+ c).
Proof. induction a as [|x a IH]; str_simpl; [reflexivity | now rewrite IH]. Qed.

Lemma length_append (a b : string) :
  String.length (a +:+ b) = String.length a + String.length b.
Proof. induction a as [|x a IH]; str_simpl; [reflexivity | now rewrite IH]. Qed.

Lemma forallb_append (p : ascii -> bool) (a b : string) :
  Str.forallb p (a +:+ b) = Str.forallb p a && Str.forallb p b.
Proof.
  induction a as [|x a IH]; [reflexivity |].
  rewrite append_cons. simpl. rewrite IH. now rewrite andb_assoc.
Qed.

Lemma take_append (a b : string) : Str.take (String.length a) (a +:+ b) = a.
Proof.
  unfold Str.take. induction a as [|x a IH].
  - now destruct b.
  - rewrite append_cons. simpl. now rewrite IH.
Qed.

Lemma consumed_append (a b : string) : Str.consumed (a +:+ b) b = a.
Proof.
  unfold Str.consumed. rewrite length_append.
  replace (String.length a + String.length b - String.length b)
    with (String.length a) by lia.
  apply take_append.
Qed.

(** * Facts about the matcher *)

(** The unread rest of a greedy repetition is tried from the shortest to the
    longest: a success after more characters wins. *)
Lemma many_longer (p : ascii -> bool) (u v : string) k r :
  Str.forallb p u = true -> many p v k = Some r -> many p (u +:+ v) k = Some r.
Proof.
  induction u as [|c u IH]; intros Hu Hv; [exact Hv |].
  rewrite append_cons. simpl in *.
  apply andb_prop in Hu as [Hc Hu]. rewrite Hc, (IH Hu Hv). reflexivity.
Qed.

Lemma many_stop (p : ascii -> bool) (u v : string) k r :
  Str.forallb p u = true -> stops p v -> k v = Some r -> many p (u +:+ v) k = Some r.
Proof.
  intros Hu Hv Hk. apply many_longer; [exact Hu |].
  destruct v as [|c v]; simpl in *; [exact Hk | now rewrite Hv].
Qed.

Lemma suffix_of_tail t c s : suffix_of t s -> suffix_of t (String c s).
Proof. intros [u ->]. now exists (String c u). Qed.

Lemma suffix_of_refl s : suffix_of s s.
Proof. now exists "". Qed.

Lemma many_none (p : ascii -> bool) (s : string) k :
  (forall t, suffix_of t s -> k t = None) -> many p s k = None.
Proof.
  induction s as [|c s IH]; simpl; intros H.
  - apply H, suffix_of_refl.
  - rewrite IH by (intros t Ht; apply H, suffix_of_tail, Ht).
    rewrite (H _ (suffix_of_refl _)). now destruct (p c).
Qed.

(** When the continuation fails on every shorter rest, a repetition that
    could swallow the whole of [s] ends up swallowing nothing. *)
Lemma many_first_fit (p : ascii -> bool) (s : string) k :
  Str.forallb p s = true ->
  (forall u t, u <> "" -> s = u +:+ t -> k t = None) ->
  many p s k = k s.
Proof.
  destruct s as [|c s]; simpl; intros Hp H; [reflexivity |].
  apply andb_prop in Hp as [Hc _]. rewrite Hc.
  rewrite many_none; [reflexivity |].
  intros t [u ->]. apply (H (String c u)); [discriminate | reflexivity].
Qed.

(** * Printing and reading numbers *)

Lemma digit_cases (P : N -> Prop) :
  P 0%N -> P 1%N -> P 2%N -> P 3%N -> P 4%N -> P 5%N -> P 6%N -> P 7%N -> P 8%N -> P 9%N ->
  forall d, (d < 10)%N -> P d.
Proof.
  intros H0 H1 H2 H3 H4 H5 H6 H7 H8 H9 d Hd.
  assert (d = 0 \/ d = 1 \/ d = 2 \/ d = 3 \/ d = 4 \/ d = 5 \/ d = 6 \/ d = 7
          \/ d = 8 \/ d = 9)%N as Hc by lia.
  repeat (destruct Hc as [-> | Hc]; [assumption |]). now subst.
Qed.

Lemma isDigit_digitChar d : (d < 10)%N -> isDigit (digitChar d) = true.
Proof. revert d. apply digit_cases; reflexivity. Qed.

Lemma digitValue_digitChar d : (d < 10)%N -> digitValue (digitChar d) = d.
Proof. revert d. apply digit_cases; reflexivity. Qed.

Lemma parseDigits_append a d s :
  Str.forallb isDigit d = true ->
  parseDigits a (d +:+ s) = parseDigits (parseDigits a d) s.
Proof.
  revert a. induction d as [|c d IH]; intros a Hd; [reflexivity |].
  rewrite append_cons. simpl in *.
  apply andb_prop in Hd as [Hc Hd]. rewrite Hc. now apply IH.
Qed.

Lemma toDigits_S (f : nat) (n : N) (acc : string) :
  toDigits (S f) n acc =
  if (n <? 10)%N then String (digitChar (n mod 10)) acc
  else toDigits f (n / 10) (String (digitChar (n mod 10)) acc).
Proof. reflexivity. Qed.

Lemma toDigits_spec (f : nat) : forall (n : N) (acc : string),
  (n < 10 ^ N.of_nat (S f))%N ->
  exists d, toDigits (S f) n acc = d +:+ acc /\ d <> "" /\
            Str.forallb isDigit d = true /\
            forall a, parseDigits a d = (a * 10 ^ N.of_nat (String.length d) + n)%N.
Proof.
  induction f as [|f IH]; intros n acc Hn.
  - assert (n < 10)%N as Hlt by (simpl in Hn; lia).
    exists (String (digitChar n) "").
    rewrite toDigits_S. rewrite N.mod_small by exact Hlt.
    apply N.ltb_lt in Hlt as Hb. rewrite Hb.
    repeat split; [discriminate | |].
    + simpl. now rewrite isDigit_digitChar.
    + intros a. simpl. rewrite isDigit_digitChar, digitValue_digitChar by exact Hlt. lia.
  - rewrite toDigits_S. destruct (N.ltb_spec n 10) as [Hlt | Hge].
    + exists (String (digitChar n) "").
      rewrite N.mod_small by exact Hlt.
      repeat split; [discriminate | |].
      * simpl. now rewrite isDigit_digitChar.
      * intros a. simpl. rewrite isDigit_digitChar, digitValue_digitChar by exact Hlt. lia.
    + assert (n mod 10 < 10)%N as Hm by (apply N.mod_lt; lia).
      assert (n / 10 < 10 ^ N.of_nat (S f))%N as Hq.
      { apply N.Div0.div_lt_upper_bound.
        replace (N.of_nat (S (S f))) with (N.succ (N.of_nat (S f))) in Hn by lia.
        rewrite N.pow_succ_r' in Hn. exact Hn. }
      destruct (IH (n / 10)%N (String (digitChar (n mod 10)) acc) Hq)
        as (d & Hd & Hne & Hdig & Hval).
      exists (d +:+ String (digitChar (n mod 10)) "").
      repeat split.
      * rewrite Hd, append_assoc. reflexivity.
      * destruct d; [contradiction | discriminate].
      * rewrite forallb_append, Hdig. simpl. now rewrite isDigit_digitChar.
      * intros a. rewrite parseDigits_append, Hval by exact Hdig.
        simpl. rewrite isDigit_digitChar, digitValue_digitChar by exact Hm.
        rewrite length_append. simpl.
        replace (N.of_nat (String.length d + 1)) with (N.succ (N.of_nat (String.length d))) by lia.
        rewrite N.pow_succ_r'.
        pose proof (N.div_mod n 10). lia.
Qed.

Lemma toString_bound (n : N) : (n < 10 ^ N.of_nat (S (N.to_nat (N.log2 n))))%N.
Proof.
  replace (N.of_nat (S (N.to_nat (N.log2 n)))) with (N.succ (N.log2 n)) by lia.
  destruct (N.eq_dec n 0%N) as [-> | Hn]; [reflexivity |].
  apply N.lt_le_trans with (2 ^ N.succ (N.log2 n))%N.
  - apply N.log2_spec. lia.
  - apply N.pow_le_mono_l. lia.
Qed.

Lemma toString_digits (n : N) :
  toString (Int n) <> "" /\ Str.forallb isDigit (toString (Int n)) = true /\
  parseInt10 (toString (Int n)) = Int n.
Proof.
  destruct (toDigits_spec (N.to_nat (N.log2 n)) n "" (toString_bound n))
    as (d & Hd & Hne & Hdig & Hval).
  unfold toString. rewrite Hd, append_nil_r.
  repeat split; [exact Hne | exact Hdig |].
  unfold parseInt10. destruct d as [|c d]; [contradiction |].
  simpl in Hdig. apply andb_prop in Hdig as [Hc Hdig]. rewrite Hc.
  f_equal. rewrite Hval. lia.
Qed.

(** * The location codec: matching a token *)

Lemma colon_not_digit : isDigit ":" = false.
Proof. reflexivity. Qed.

Lemma exec_tail_found (dl dc : string) caps k r :
  dl <> "" -> Str.forallb isDigit dl = true ->
  dc <> "" -> Str.forallb isDigit dc = true ->
  k "" ((caps ++ [dl]) ++ [dc]) = Some r ->
  exec tailRe (":" +:+ dl +:+ ":" +:+ dc) caps k = Some r.
Proof.
  intros Hl Hld Hc Hcd Hk.
  destruct dl as [|l0 dl]; [contradiction |].
  destruct dc as [|c0 dc]; [contradiction |].
  simpl in Hld, Hcd.
  apply andb_prop in Hld as [Hl0 Hld]. apply andb_prop in Hcd as [Hc0 Hcd].
  str_norm.
  cbn [tailRe Lit Plus exec]. unfold isChar. rewrite Ascii.eqb_refl, Hl0.
  apply many_stop; [exact Hld | exact colon_not_digit |].
  rewrite Ascii.eqb_refl, Hc0.
  rewrite <- (append_nil_r dc) at 1.
  apply many_stop; [exact Hcd | exact I |].
  rewrite <- Hk. f_equal. f_equal.
  - f_equal. f_equal.
    change (String l0 (dl +:+ String ":" (String c0 dc)))
      with (String l0 dl +:+ String ":" (String c0 dc)).
    apply consumed_append.
  - f_equal. rewrite <- (append_nil_r (String c0 dc)) at 1. apply consumed_append.
Qed.

Lemma digits_no_colon (u t : string) :
  Str.forallb isDigit (u +:+ String ":" t) = false.
Proof.
  rewrite forallb_append.
  change (Str.forallb isDigit (String ":" t)) with (isDigit ":" && Str.forallb isDigit t).
  rewrite colon_not_digit. apply andb_false_r.
Qed.

(** In [dl:dc] with digits on both sides there is one colon. *)
Lemma colon_split (dl dc u t : string) :
  Str.forallb isDigit dl = true -> Str.forallb isDigit dc = true ->
  dl +:+ String ":" dc = u +:+ String ":" t -> u = dl /\ t = dc.
Proof.
  revert u. induction dl as [|d dl IH]; intros u Hl Hc E.
  - rewrite append_nil_l in E. destruct u as [|x u].
    + rewrite append_nil_l in E. now inversion E.
    + rewrite append_cons in E. inversion E; subst.
      rewrite digits_no_colon in Hc. discriminate.
  - simpl in Hl. apply andb_prop in Hl as [Hd Hl].
    rewrite append_cons in E. destruct u as [|x u].
    + rewrite append_nil_l in E. inversion E; subst.
      rewrite colon_not_digit in Hd. discriminate.
    + rewrite append_cons in E. inversion E; subst.
      destruct (IH u Hl Hc H1) as [-> ->]. now split.
Qed.

Lemma exec_tail_short (dl dc u t : string) caps k :
  Str.forallb isDigit dl = true -> Str.forallb isDigit dc = true ->
  u <> "" -> ":" +:+ dl +:+ ":" +:+ dc = u +:+ t ->
  exec tailRe t caps k = None.
Proof.
  intros Hl Hc Hu E.
  destruct t as [|x t]; [reflexivity |].
  cbn [tailRe Lit exec]. unfold isChar.
  destruct (Ascii.eqb ":" x) eqn:Hx; [| reflexivity].
  apply Ascii.eqb_eq in Hx. subst x.
  destruct u as [|y u]; [contradiction |].
  str_norm. rewrite append_cons in E. inversion E as [[Hy E']].
  destruct (colon_split dl dc u t Hl Hc E') as [-> ->].
  cbn [Plus exec]. destruct dc as [|c0 dc]; [reflexivity |].
  destruct (isDigit c0); [| reflexivity].
  apply many_none. intros t [v Hv].
  destruct t as [|z t]; [reflexivity |].
  destruct (Ascii.eqb ":" z) eqn:Hz; [| reflexivity].
  apply Ascii.eqb_eq in Hz. subst z. exfalso.
  simpl in Hc. apply andb_prop in Hc as [_ Hc].
  rewrite Hv, digits_no_colon in Hc. discriminate.
Qed.

Lemma digits_dot (d : string) : Str.forallb isDigit d = true -> Str.forallb dot d = true.
Proof.
  induction d as [|c d IH]; simpl; [reflexivity |].
  intros H. apply andb_prop in H as [Hc Hd]. rewrite (IH Hd), andb_true_r.
  unfold isDigit in Hc. unfold dot, isLineTerminator.
  destruct (N_of_ascii c) as [|q]; [discriminate |].
  apply andb_prop in Hc as [H1 H2]. apply N.leb_le in H1, H2.
  apply negb_true_iff, orb_false_iff. split; apply N.eqb_neq; lia.
Qed.

Lemma matchStart_location (f dl dc : string) :
  f <> "" -> Str.forallb dot f = true ->
  dl <> "" -> Str.forallb isDigit dl = true ->
  dc <> "" -> Str.forallb isDigit dc = true ->
  matchStart locationRe (f +:+ ":" +:+ dl +:+ ":" +:+ dc) = Some ("", [f; dl; dc]).
Proof.
  intros Hf Hfd Hl Hld Hc Hcd.
  destruct f as [|f0 f]; [contradiction |].
  simpl in Hfd. apply andb_prop in Hfd as [Hf0 Hfd].
  unfold matchStart. rewrite append_cons.
  change locationRe with (Seq (Group (Plus dot)) tailRe).
  cbn [exec Plus]. rewrite Hf0.
  apply many_longer; [exact Hfd |].
  rewrite many_first_fit.
  - apply exec_tail_found; try assumption. simpl. do 3 f_equal.
    change (String f0 (f +:+ ":" +:+ dl +:+ ":" +:+ dc))
      with (String f0 f +:+ (":" +:+ dl +:+ ":" +:+ dc)).
    apply consumed_append.
  - rewrite !forallb_append, (digits_dot dl Hld), (digits_dot dc Hcd). reflexivity.
  - intros u t Hu E. apply (exec_tail_short dl dc u t); assumption.
Qed.

(** * The highlighting sessions *)

Section NavigatorFacts.

Variable validSelector : string -> bool.

Lemma addListener_NoDup h l : NoDup l -> NoDup (addListener h l).
Proof.
  intros H. unfold addListener. case_decide; [exact H |].
  apply NoDup_app. repeat split; [exact H | | apply NoDup_singleton].
  intros x Hx Hx'. apply list_elem_of_singleton in Hx'. now subst.
Qed.

Lemma elem_of_addListener x h l : x ∈ addListener h l <-> x ∈ l \/ x = h.
Proof.
  unfold addListener. case_decide.
  - split; [now left | intros [? | ->]; assumption].
  - rewrite elem_of_app, list_elem_of_singleton. reflexivity.
Qed.

Lemma removeListener_NoDup h l : NoDup l -> NoDup (removeListener h l).
Proof. apply NoDup_filter. Qed.

Lemma elem_of_removeListener x h l : x ∈ removeListener h l <-> x ≠ h /\ x ∈ l.
Proof. unfold removeListener. rewrite list_elem_of_filter. reflexivity. Qed.

Lemma process_frame sid p :
  let q := (processElements validSelector sid p).1 in
  keydownListeners q = keydownListeners p /\ clickListeners q = clickListeners p /\
  observers q = observers p /\ headStyles q = headStyles p /\
  bodyClasses q = bodyClasses p /\ sessions q = sessions p /\
  nextObject q = nextObject p /\ loaderConfigSlot q = loaderConfigSlot p.
Proof.
  unfold processElements, bind, readSession, modify, throw.
  destruct (sessions p !! sid) as [s|]; simpl; [| tauto].
  destruct (validSelector (s_attributeName s)); simpl; tauto.
Qed.

Lemma process_Inv sid p : Inv p -> Inv (processElements validSelector sid p).1.
Proof.
  intros [].
  destruct (process_frame sid p) as (E1 & E2 & E3 & E4 & E5 & E6 & E7 & E8).
  constructor; rewrite ?E1, ?E2, ?E3, ?E4, ?E6, ?E7; assumption.
Qed.

Lemma bind_read {B} sid s (k : Session -> Eff B) p :
  sessions p !! sid = Some s -> bind (readSession sid) k p = k s p.
Proof. intros H. unfold bind, readSession. now rewrite H. Qed.

Lemma bind_write {B} sid s f (k : unit -> Eff B) p :
  sessions p !! sid = Some s ->
  bind (writeSession sid f) k p = k tt (withSession sid (f s) p).
Proof.
  intros H. unfold bind, writeSession, modify, withSession, setSessions.
  now rewrite H.
Qed.

Lemma bind_modify {B} g (k : unit -> Eff B) p : bind (modify g) k p = k tt (g p).
Proof. reflexivity. Qed.

Lemma bind_new {B} (k : nat -> Eff B) p : bind newObject k p = k (nextObject p) (bump p).
Proof. reflexivity. Qed.

Lemma write_last sid s f p :
  sessions p !! sid = Some s -> writeSession sid f p = (withSession sid (f s) p, Ok tt).
Proof.
  intros H. unfold writeSession, modify, withSession, setSessions. now rewrite H.
Qed.

Lemma lookup_withSession sid s p :
  sid < length (sessions p) -> sessions (withSession sid s p) !! sid = Some s.
Proof. intros H. simpl. now apply list_lookup_insert_eq. Qed.

(** The invariant survives a change of one session and of what it has
    registered. *)
Lemma Inv_update (p q : Page) (sid : nat) (s s' : Session) :
  Inv p ->
  sessions p !! sid = Some s ->
  sessions q = <[sid := s']> (sessions p) ->
  nextObject p <= nextObject q ->
  (forall e, styleElement s = Some e -> styleElement s' = Some e) ->
  NoDup (keydownListeners q) ->
  (forall h, h ∈ keydownListeners q -> h ∈ keydownListeners p) ->
  NoDup (clickListeners q) ->
  (forall h, h ∈ clickListeners q -> h ∈ clickListeners p \/ h = sid) ->
  NoDup (observers q).*1 ->
  (forall o j, (o, j) ∈ observers q ->
     ((o, j) ∈ observers p /\ j <> sid) \/
     (j = sid /\ o < nextObject q /\ observer s' = Some o /\ isEnabled s' = true)) ->
  NoDup (headStyles q).*1 ->
  (forall e j, (e, j) ∈ headStyles q ->
     (e, j) ∈ headStyles p \/
     (j = sid /\ e < nextObject q /\ styleElement s' = Some e)) ->
  Inv q.
Proof.
  intros [] Hs Hq Hn Hst Hk1 Hk2 Hc1 Hc2 Ho1 Ho2 Hh1 Hh2.
  assert (sid < length (sessions p)) as Hlt by (eapply lookup_lt_Some; eassumption).
  assert (length (sessions q) = length (sessions p)) as Hlen
    by (rewrite Hq; apply length_insert).
  assert (sessions q !! sid = Some s') as Hs'
    by (rewrite Hq; now apply list_lookup_insert_eq).
  assert (forall j, j <> sid -> sessions q !! j = sessions p !! j) as Hne
    by (intros j Hj; rewrite Hq; apply list_lookup_insert_ne; congruence).
  constructor; try assumption.
  - intros h Hh. rewrite Hlen. auto.
  - intros h Hh. rewrite Hlen. destruct (Hc2 h Hh) as [? | ->]; auto.
  - intros o j Hin. destruct (Ho2 o j Hin) as [[Hold Hj] | (-> & Hlt' & Hob & Hen)].
    + destruct (inv_observer_owner0 o j Hold) as (Ho & sj & Hsj & Hobs & Hen).
      split; [lia |]. exists sj. rewrite (Hne j Hj). auto.
    + split; [exact Hlt' |]. exists s'. auto.
  - intros e j Hin. destruct (Hh2 e j Hin) as [Hold | (-> & Hlt' & Hnew)].
    + destruct (inv_head_owner0 e j Hold) as (He & sj & Hsj & Hown).
      split; [lia |]. destruct (decide (j = sid)) as [-> | Hj].
      * exists s'. split; [exact Hs' |]. apply Hst. congruence.
      * exists sj. rewrite (Hne j Hj). auto.
    + split; [exact Hlt' |]. exists s'. auto.
Qed.

Lemma observers_of_disabled p sid s o :
  Inv p -> sessions p !! sid = Some s -> isEnabled s = false -> (o, sid) ∉ observers p.
Proof.
  intros [] Hs Hen Hin.
  destruct (inv_observer_owner0 o sid Hin) as (_ & s' & Hs' & _ & Hen'). congruence.
Qed.

Lemma observers_of_session p sid s o :
  Inv p -> sessions p !! sid = Some s -> (o, sid) ∈ observers p -> observer s = Some o.
Proof.
  intros [] Hs Hin.
  destruct (inv_observer_owner0 o sid Hin) as (_ & s' & Hs' & Ho & _). congruence.
Qed.

Lemma fresh_object p e : Inv p -> e ∈ (headStyles p).*1 -> e < nextObject p.
Proof.
  intros [] H. apply list_elem_of_fmap in H as [[e' j] [-> Hin]].
  now apply (inv_head_owner0 e' j).
Qed.

Lemma fresh_observer p o : Inv p -> o ∈ (observers p).*1 -> o < nextObject p.
Proof.
  intros [] H. apply list_elem_of_fmap in H as [[o' j] [-> Hin]].
  now apply (inv_observer_owner0 o' j).
Qed.

Lemma NoDup_snoc {A} (l : list A) (x : A) : NoDup l -> x ∉ l -> NoDup (l ++ [x]).
Proof.
  intros Hl Hx. apply NoDup_app. repeat split; [exact Hl | | apply NoDup_singleton].
  intros y Hy Hy'. apply list_elem_of_singleton in Hy'. now subst.
Qed.

Lemma NoDup_filter_fst (P : nat * nat -> Prop) `{forall x, Decision (P x)}
    (l : list (nat * nat)) : NoDup l.*1 -> NoDup (filter P l).*1.
Proof.
  intros Hl. eapply sublist_NoDup; [exact Hl |]. apply fmap_sublist, sublist_filter.
Qed.

Lemma bind_assoc {A B C} (m : Eff A) (f : A -> Eff B) (k : B -> Eff C) p :
  bind (bind m f) k p = bind m (fun x => bind (f x) k) p.
Proof. unfold bind. destruct (m p) as [q [a | e]]; reflexivity. Qed.

Lemma bind_ret {A B} (a : A) (k : A -> Eff B) p : bind (ret a) k p = k a p.
Proof. reflexivity. Qed.

Lemma bind_throw {A B} e (k : A -> Eff B) p : bind (throw e) k p = (p, Throw e).
Proof. reflexivity. Qed.

Lemma toggle_Inv sid p : Inv p -> Inv (toggleHighlighting validSelector sid p).1.
Proof.
  intros HI. pose proof HI as [].
  unfold toggleHighlighting.
  destruct (sessions p !! sid) as [s|] eqn:Hs;
    [| unfold bind, readSession; rewrite Hs; exact HI].
  assert (sid < length (sessions p)) as Hlt by (eapply lookup_lt_Some; eassumption).
  rewrite (bind_read _ _ _ _ Hs), (bind_write _ _ _ _ _ Hs).
  destruct (isEnabled s) eqn:Hen; cbn [negb].
  - (* switching off *)
    rewrite !bind_modify.
    erewrite bind_read by (apply lookup_withSession; exact Hlt).
    destruct (observer s) as [o|] eqn:Ho; cbn [setEnabled observer]; rewrite ?Ho.
    + rewrite bind_modify. erewrite write_last by (apply lookup_withSession; exact Hlt).
      cbn [fst].
      eapply (Inv_update p _ sid s); [exact HI | exact Hs | | | | | | | | | | |];
          unfold setObserver, setEnabled, setStyleElement; simpl.
      * rewrite list_insert_insert_eq. reflexivity.
      * lia.
      * auto.
      * assumption.
      * auto.
      * now apply removeListener_NoDup.
      * intros h Hh. apply elem_of_removeListener in Hh. tauto.
      * now apply NoDup_filter_fst.
      * intros o' j Hin. apply list_elem_of_filter in Hin as [Hne Hin]. simpl in Hne.
        left. split; [exact Hin |]. intros ->.
        pose proof (observers_of_session p sid s o' HI Hs Hin). congruence.
      * assumption.
      * auto.
    + cbn [fst ret].
      eapply (Inv_update p _ sid s); [exact HI | exact Hs | | | | | | | | | | |];
          unfold setObserver, setEnabled, setStyleElement; simpl.
      * reflexivity.
      * lia.
      * auto.
      * assumption.
      * auto.
      * now apply removeListener_NoDup.
      * intros h Hh. apply elem_of_removeListener in Hh. tauto.
      * assumption.
      * intros o' j Hin. left. split; [exact Hin |]. intros ->.
        pose proof (observers_of_session p sid s o' HI Hs Hin). congruence.
      * assumption.
      * auto.
  - (* switching on *)
    assert (forall o, (o, sid) ∉ observers p) as Hnone
      by (intros o; eapply observers_of_disabled; eassumption).
    assert (forall o j, (o, j) ∈ observers p -> (o, j) ∈ observers p /\ j <> sid) as Hold
      by (intros o j Hin; split; [exact Hin | intros ->; exact (Hnone o Hin)]).
    unfold createStyles, processElements.
    rewrite bind_assoc. erewrite bind_read by (apply lookup_withSession; exact Hlt).
    cbn [setEnabled styleElement].
    destruct (styleElement s) as [e|] eqn:He.
    + rewrite bind_ret, bind_assoc.
      erewrite bind_read by (apply lookup_withSession; exact Hlt).
      change (s_attributeName (setEnabled true s)) with (s_attributeName s).
      destruct (validSelector (s_attributeName s)).
      * rewrite !bind_modify, bind_new.
        erewrite bind_write by (apply lookup_withSession; exact Hlt).
        unfold modify. cbn [fst].
        eapply (Inv_update p _ sid s); [exact HI | exact Hs | | | | | | | | | | |];
          unfold setObserver, setEnabled, setStyleElement; simpl.
        -- rewrite list_insert_insert_eq. reflexivity.
        -- lia.
        -- rewrite He. auto.
        -- assumption.
        -- auto.
        -- now apply addListener_NoDup.
        -- intros h Hh. now apply elem_of_addListener in Hh.
        -- rewrite fmap_app. apply NoDup_snoc; [assumption |].
           intros Hin. apply (fresh_observer p _ HI) in Hin. simpl in Hin. lia.
        -- intros o j Hin. apply elem_of_app in Hin as [Hin | Hin]; [left; auto |].
           apply list_elem_of_singleton in Hin. inversion Hin; subst.
           right. repeat split; lia || reflexivity.
        -- assumption.
        -- auto.
      * rewrite bind_throw. cbn [fst].
        eapply (Inv_update p _ sid s); [exact HI | exact Hs | | | | | | | | | | |];
          unfold setObserver, setEnabled, setStyleElement; simpl;
          try assumption; auto.
    + rewrite ?bind_assoc, bind_new, ?bind_assoc.
      erewrite bind_write by (apply lookup_withSession; exact Hlt).
      rewrite ?bind_assoc, bind_modify, ?bind_assoc.
      erewrite bind_read by (simpl; rewrite list_insert_insert_eq;
                             apply list_lookup_insert_eq; exact Hlt).
      cbn [setStyleElement setEnabled s_attributeName].
      destruct (validSelector (s_attributeName s)).
      * rewrite !bind_modify, bind_new.
        erewrite bind_write by (simpl; rewrite list_insert_insert_eq;
                                apply list_lookup_insert_eq; exact Hlt).
        unfold modify. cbn [fst].
        eapply (Inv_update p _ sid s); [exact HI | exact Hs | | | | | | | | | | |];
          unfold setObserver, setEnabled, setStyleElement; simpl.
        -- rewrite !list_insert_insert_eq. reflexivity.
        -- lia.
        -- rewrite He. discriminate.
        -- assumption.
        -- auto.
        -- now apply addListener_NoDup.
        -- intros h Hh. now apply elem_of_addListener in Hh.
        -- rewrite fmap_app. apply NoDup_snoc; [assumption |].
           intros Hin. apply (fresh_observer p _ HI) in Hin. simpl in Hin. lia.
        -- intros o j Hin. apply elem_of_app in Hin as [Hin | Hin]; [left; auto |].
           apply list_elem_of_singleton in Hin. inversion Hin; subst.
           right. repeat split; lia || reflexivity.
        -- rewrite fmap_app. apply NoDup_snoc; [assumption |].
           intros Hin. apply (fresh_object p _ HI) in Hin. simpl in Hin. lia.
        -- intros e j Hin. apply elem_of_app in Hin as [Hin | Hin]; [left; auto |].
           apply list_elem_of_singleton in Hin. inversion Hin; subst.
           right. repeat split; lia || reflexivity.
      * rewrite bind_throw. cbn [fst].
        eapply (Inv_update p _ sid s); [exact HI | exact Hs | | | | | | | | | | |];
          unfold setObserver, setEnabled, setStyleElement; simpl.
        -- rewrite !list_insert_insert_eq. reflexivity.
        -- lia.
        -- rewrite He. discriminate.
        -- assumption.
        -- auto.
        -- assumption.
        -- auto.
        -- assumption.
        -- auto.
        -- rewrite fmap_app. apply NoDup_snoc; [assumption |].
           intros Hin. apply (fresh_object p _ HI) in Hin. simpl in Hin. lia.
        -- intros e j Hin. apply elem_of_app in Hin as [Hin | Hin]; [left; auto |].
           apply list_elem_of_singleton in Hin. inversion Hin; subst.
           right. repeat split; lia || reflexivity.
Qed.

Ltac run_eff :=
  unfold toggleHighlighting, createStyles, processElements, cleanup, keyboardHandler,
    bind, readSession, writeSession, modify, throw, newObject, ret,
    setSessions, setObservers, setHead, setClick, setKeydown, setClasses, setNodes;
  repeat (simpl; case_match; simplify_eq); simpl.

Lemma toggle_frame sid p :
  keydownListeners (toggleHighlighting validSelector sid p).1 = keydownListeners p /\
  length (sessions (toggleHighlighting validSelector sid p).1) = length (sessions p).
Proof. run_eff; rewrite ?length_insert; auto. Qed.

Lemma keyboardHandler_Inv sid shiftKey key p :
  Inv p -> Inv (keyboardHandler validSelector sid shiftKey key p).1.
Proof.
  intros HI. unfold keyboardHandler.
  destruct (shiftKey && String.eqb key "Z"); [now apply toggle_Inv | exact HI].
Qed.

Lemma keyboardHandler_frame sid shiftKey key p :
  keydownListeners (keyboardHandler validSelector sid shiftKey key p).1 = keydownListeners p /\
  length (sessions (keyboardHandler validSelector sid shiftKey key p).1) = length (sessions p).
Proof.
  unfold keyboardHandler.
  destruct (shiftKey && String.eqb key "Z"); [apply toggle_frame | auto].
Qed.

Lemma dispatchKeyDown_Inv shiftKey key p :
  Inv p -> Inv (dispatchKeyDown validSelector shiftKey key p).
Proof.
  unfold dispatchKeyDown. generalize (keydownListeners p) as l. intros l. revert p.
  induction l as [|sid l IH]; intros p HI; simpl; [exact HI |].
  apply IH, keyboardHandler_Inv, HI.
Qed.

Lemma dispatchKeyDown_frame shiftKey key p :
  keydownListeners (dispatchKeyDown validSelector shiftKey key p) = keydownListeners p /\
  length (sessions (dispatchKeyDown validSelector shiftKey key p)) = length (sessions p).
Proof.
  unfold dispatchKeyDown.
  assert (forall l q,
    keydownListeners (fold_left (fun q sid =>
        (keyboardHandler validSelector sid shiftKey key q).1) l q) = keydownListeners q /\
    length (sessions (fold_left (fun q sid =>
        (keyboardHandler validSelector sid shiftKey key q).1) l q)) = length (sessions q)) as H.
  { induction l as [|sid l IH]; intros q; simpl; [auto |].
    destruct (IH (keyboardHandler validSelector sid shiftKey key q).1) as [E1 E2].
    destruct (keyboardHandler_frame sid shiftKey key q) as [F1 F2].
    rewrite E1, E2, F1, F2. auto. }
  apply H.
Qed.

Lemma notifyObservers_Inv p : Inv p -> Inv (notifyObservers validSelector p).
Proof.
  unfold notifyObservers. generalize (observers p) as l. intros l. revert p.
  induction l as [|o l IH]; intros p HI; simpl; [exact HI |].
  apply IH, process_Inv, HI.
Qed.

Lemma notifyObservers_frame p :
  keydownListeners (notifyObservers validSelector p) = keydownListeners p /\
  length (sessions (notifyObservers validSelector p)) = length (sessions p).
Proof.
  unfold notifyObservers.
  assert (forall (l : list (nat * nat)) q,
    keydownListeners (fold_left (fun q o => (processElements validSelector o.2 q).1) l q)
      = keydownListeners q /\
    length (sessions (fold_left (fun q o => (processElements validSelector o.2 q).1) l q))
      = length (sessions q)) as H.
  { induction l as [|o l IH]; intros q; simpl; [auto |].
    destruct (IH (processElements validSelector o.2 q).1) as [E1 E2].
    destruct (process_frame o.2 q) as (F1 & _ & _ & _ & _ & F2 & _).
    rewrite E1, E2, F1, F2. auto. }
  apply H.
Qed.

Lemma cleanup_Inv c p : Inv p -> Inv (cleanup c p).1.
Proof.
  intros HI. pose proof HI as []. destruct c as [|sid]; [exact HI |].
  unfold cleanup. rewrite !bind_modify.
  destruct (sessions p !! sid) as [s|] eqn:Hs.
  - erewrite bind_read by exact Hs.
    assert (Inv (setClasses (fun c => c ∖ {[MARKER_CLASS]})
              (setObservers (match observer s with
                             | Some o => filter (fun x => x.1 ≠ o)
                             | None => fun l => l
                             end)
                (setHead (match styleElement s with
                          | Some el => filter (fun x => x.1 ≠ el)
                          | None => fun l => l
                          end)
                   (setClick (removeListener sid)
                      (setKeydown (removeListener sid) p)))))) as HQ.
    { eapply (Inv_update p _ sid s); [exact HI | exact Hs | | | | | | | | | | |]; simpl.
      - symmetry. apply list_insert_id. exact Hs.
      - lia.
      - auto.
      - now apply removeListener_NoDup.
      - intros h Hh. apply elem_of_removeListener in Hh. tauto.
      - now apply removeListener_NoDup.
      - intros h Hh. apply elem_of_removeListener in Hh. tauto.
      - destruct (observer s); [now apply NoDup_filter_fst | assumption].
      - intros o j Hin.
        assert ((o, j) ∈ observers p) as Hold
          by (destruct (observer s); [apply list_elem_of_filter in Hin |]; tauto).
        destruct (decide (j = sid)) as [-> | Hj]; [| now left].
        pose proof (observers_of_session p sid s o HI Hs Hold) as Ho.
        rewrite Ho in Hin. apply list_elem_of_filter in Hin as [Hne _]. now simpl in Hne.
      - destruct (styleElement s); [now apply NoDup_filter_fst | assumption].
      - intros e j Hin. left.
        destruct (styleElement s); [apply list_elem_of_filter in Hin |]; tauto. }
    destruct (styleElement s), (observer s); exact HQ.
  - unfold bind, readSession. simpl. rewrite Hs. simpl.
    constructor; simpl; try assumption.
    + now apply removeListener_NoDup.
    + now apply removeListener_NoDup.
    + intros h Hh. apply elem_of_removeListener in Hh. apply inv_keydown_sid0. tauto.
    + intros h Hh. apply elem_of_removeListener in Hh. apply inv_click_sid0. tauto.
Qed.

Lemma lookup_registered config p :
  sessions (registered config p) !! length (sessions p) = Some (sessionOf config p).
Proof. simpl. now apply list_lookup_middle. Qed.

Lemma registered_Inv config p : Inv p -> Inv (registered config p).
Proof.
  intros []. constructor; simpl; try assumption.
  - now apply addListener_NoDup.
  - intros h Hh. rewrite length_app. simpl.
    apply elem_of_addListener in Hh as [Hh | ->]; [apply inv_keydown_sid0 in Hh |]; lia.
  - intros h Hh. rewrite length_app. apply inv_click_sid0 in Hh. lia.
  - intros o j Hin. destruct (inv_observer_owner0 o j Hin) as (Ho & sj & Hsj & Hrest).
    split; [exact Ho |]. exists sj. split; [| exact Hrest]. now apply lookup_app_l_Some.
  - intros e j Hin. destruct (inv_head_owner0 e j Hin) as (He & sj & Hsj & Hrest).
    split; [exact He |]. exists sj. split; [| exact Hrest]. now apply lookup_app_l_Some.
Qed.

(** Switching off does not throw. *)
Lemma toggle_off_ok sid s p :
  sessions p !! sid = Some s -> isEnabled s = true -> (toggleHighlighting validSelector sid p).2 = Ok tt.
Proof.
  intros Hs Hen. unfold toggleHighlighting.
  assert (sid < length (sessions p)) as Hlt by (eapply lookup_lt_Some; eassumption).
  rewrite (bind_read _ _ _ _ Hs), (bind_write _ _ _ _ _ Hs), Hen. cbn [negb].
  rewrite !bind_modify.
  erewrite bind_read by (apply lookup_withSession; exact Hlt).
  destruct (observer (setEnabled false s)) as [o|]; [| reflexivity].
  rewrite bind_modify. erewrite write_last by (apply lookup_withSession; exact Hlt).
  reflexivity.
Qed.

(** A call does not throw, and returns the cleanup of the new session. *)
Lemma activate_eq config p :
  activate validSelector config p =
  ((if isEnabled (sessionOf config p)
    then (toggleHighlighting validSelector (length (sessions p)) (registered config p)).1
    else registered config p),
   Ok (SessionCleanup (length (sessions p)))).
Proof.
  unfold activate. rewrite !bind_modify.
  fold (sessionOf config p). fold (registered config p).
  change (orDefault false (enabledByDefault (mergeConfig (getGazeConfig p) config)))
    with (isEnabled (sessionOf config p)).
  destruct (isEnabled (sessionOf config p)) eqn:Hen; [| reflexivity].
  pose proof (toggle_off_ok _ _ _ (lookup_registered config p) Hen) as Hok.
  unfold bind.
  destruct (toggleHighlighting validSelector (length (sessions p)) (registered config p)) as [q [[] | e]];
    simpl in Hok; [reflexivity | discriminate].
Qed.

Lemma activate_Inv config p : Inv p -> Inv (activate validSelector config p).1.
Proof.
  intros HI. rewrite activate_eq. cbn [fst].
  destruct (isEnabled (sessionOf config p));
    [apply toggle_Inv |]; now apply registered_Inv.
Qed.

Lemma activate_frame config p :
  keydownListeners (activate validSelector config p).1
    = addListener (length (sessions p)) (keydownListeners p) /\
  length (sessions (activate validSelector config p).1) = S (length (sessions p)).
Proof.
  rewrite activate_eq. cbn [fst].
  assert (length (sessions (registered config p)) = S (length (sessions p))) as Hl
    by (simpl; rewrite length_app; simpl; lia).
  destruct (isEnabled (sessionOf config p)); [| now split].
  destruct (toggle_frame (length (sessions p)) (registered config p)) as [E1 E2].
  rewrite E1, E2. now split.
Qed.

Lemma cleanup_frame c p : length (sessions (cleanup c p).1) = length (sessions p).
Proof. run_eff; auto. Qed.

Lemma step_Inv e p : Inv p -> Inv (step validSelector e p).
Proof.
  intros HI. destruct e as [config | shiftKey key | c | el]; simpl.
  - now apply activate_Inv.
  - now apply dispatchKeyDown_Inv.
  - now apply cleanup_Inv.
  - apply notifyObservers_Inv. destruct HI. constructor; assumption.
Qed.

Lemma run_Inv trace p : Inv p -> Inv (run validSelector trace p).
Proof.
  unfold run. revert p.
  induction trace as [|e trace IH]; intros p HI; simpl; [exact HI |].
  apply IH, step_Inv, HI.
Qed.

Lemma freshPage_Inv slot els : Inv (freshPage slot els).
Proof.
  constructor; simpl; try apply NoDup_nil_2;
    intros; match goal with H : _ ∈ [] |- _ => apply elem_of_nil in H; contradiction end.
Qed.

Lemma step_sessions e p : length (sessions p) <= length (sessions (step validSelector e p)).
Proof.
  destruct e as [config | shiftKey key | c | el]; simpl.
  - destruct (activate_frame config p) as [_ ->]. lia.
  - destruct (dispatchKeyDown_frame shiftKey key p) as [_ ->]. lia.
  - rewrite cleanup_frame. lia.
  - destruct (notifyObservers_frame (setNodes (fun l => l ++ [el]) p)) as [_ ->]. simpl. lia.
Qed.

Lemma run_sessions trace p : length (sessions p) <= length (sessions (run validSelector trace p)).
Proof.
  unfold run. revert p.
  induction trace as [|e trace IH]; intros p; simpl; [lia |].
  etransitivity; [apply (step_sessions e) | apply IH].
Qed.

Lemma cleanup_eq sid s p :
  sessions p !! sid = Some s ->
  cleanup (SessionCleanup sid) p = (cleaned sid s p, Ok tt).
Proof.
  intros Hs. unfold cleanup. rewrite !bind_modify.
  erewrite bind_read by exact Hs.
  unfold cleaned. destruct (styleElement s), (observer s); reflexivity.
Qed.

Lemma Page_eq (p q : Page) :
  loaderConfigSlot p = loaderConfigSlot q -> nodes p = nodes q ->
  keydownListeners p = keydownListeners q -> clickListeners p = clickListeners q ->
  observers p = observers q -> headStyles p = headStyles q ->
  bodyClasses p = bodyClasses q -> sessions p = sessions q ->
  nextObject p = nextObject q -> p = q.
Proof. destruct p, q. simpl. intros. subst. reflexivity. Qed.

Lemma cleaned_twice sid s p : cleaned sid s (cleaned sid s p) = cleaned sid s p.
Proof.
  apply Page_eq; unfold cleaned; simpl; try reflexivity.
  - apply list_filter_filter_l. auto.
  - apply list_filter_filter_l. auto.
  - destruct (observer s); [apply list_filter_filter_l; auto | reflexivity].
  - destruct (styleElement s); [apply list_filter_filter_l; auto | reflexivity].
  - apply set_eq. intros x. rewrite !elem_of_difference. tauto.
Qed.

Lemma head_of_session p sid s e :
  Inv p -> sessions p !! sid = Some s -> (e, sid) ∈ headStyles p -> styleElement s = Some e.
Proof.
  intros [] Hs Hin.
  destruct (inv_head_owner0 e sid Hin) as (_ & s' & Hs' & He). congruence.
Qed.

Lemma ownedBy_nil sid l : (forall o, (o, sid) ∉ l) -> ownedBy sid l = [].
Proof.
  intros H. unfold ownedBy. apply elem_of_nil_inv. intros [o j] Hin.
  apply list_elem_of_filter in Hin as [Hj Hin]. simpl in Hj. subst j. exact (H o Hin).
Qed.

Lemma cleaned_nothing_left sid s p :
  Inv p -> sessions p !! sid = Some s ->
  (sid ∉ keydownListeners (cleaned sid s p)) /\
  (sid ∉ clickListeners (cleaned sid s p)) /\
  ownedBy sid (observers (cleaned sid s p)) = [] /\
  ownedBy sid (headStyles (cleaned sid s p)) = [] /\
  MARKER_CLASS ∉ bodyClasses (cleaned sid s p).
Proof.
  intros HI Hs. unfold cleaned. simpl. repeat split.
  - intros Hin. apply elem_of_removeListener in Hin. tauto.
  - intros Hin. apply elem_of_removeListener in Hin. tauto.
  - apply ownedBy_nil. intros o Hin.
    assert ((o, sid) ∈ observers p) as Hold
      by (destruct (observer s); [apply list_elem_of_filter in Hin |]; tauto).
    pose proof (observers_of_session p sid s o HI Hs Hold) as Ho.
    rewrite Ho in Hin. apply list_elem_of_filter in Hin as [Hne _]. now simpl in Hne.
  - apply ownedBy_nil. intros e Hin.
    assert ((e, sid) ∈ headStyles p) as Hold
      by (destruct (styleElement s); [apply list_elem_of_filter in Hin |]; tauto).
    pose proof (head_of_session p sid s e HI Hs Hold) as He.
    rewrite He in Hin. apply list_elem_of_filter in Hin as [Hne _]. now simpl in Hne.
  - intros Hin. apply elem_of_difference in Hin as [_ Hin].
    apply Hin, elem_of_singleton. reflexivity.
Qed.

(** On a page with one session, what is not that session's is nobody's. *)
Lemma single_session_empty p :
  Inv p -> length (sessions p) = 1 ->
  0 ∉ keydownListeners p -> 0 ∉ clickListeners p ->
  ownedBy 0 (observers p) = [] -> ownedBy 0 (headStyles p) = [] ->
  keydownListeners p = [] /\ clickListeners p = [] /\ observers p = [] /\ headStyles p = [].
Proof.
  intros [] Hlen Hk Hc Ho Hh.
  assert (forall j s, sessions p !! j = Some s -> j = 0) as Hzero
    by (intros j s Hj; apply lookup_lt_Some in Hj; lia).
  repeat split; apply elem_of_nil_inv.
  - intros h Hin. pose proof (inv_keydown_sid0 h Hin).
    assert (h = 0) as -> by lia. contradiction.
  - intros h Hin. pose proof (inv_click_sid0 h Hin).
    assert (h = 0) as -> by lia. contradiction.
  - intros [o j] Hin. destruct (inv_observer_owner0 o j Hin) as (_ & s & Hs & _).
    apply Hzero in Hs as ->.
    assert ((o, 0) ∈ ownedBy 0 (observers p)) as Hin'
      by (apply list_elem_of_filter; split; [reflexivity | exact Hin]).
    rewrite Ho in Hin'. now apply elem_of_nil in Hin'.
  - intros [e j] Hin. destruct (inv_head_owner0 e j Hin) as (_ & s & Hs & _).
    apply Hzero in Hs as ->.
    assert ((e, 0) ∈ ownedBy 0 (headStyles p)) as Hin'
      by (apply list_elem_of_filter; split; [reflexivity | exact Hin]).
    rewrite Hh in Hin'. now apply elem_of_nil in Hin'.
Qed.

Lemma step_sessions_eq e p :
  isActivate e = false -> length (sessions (step validSelector e p)) = length (sessions p).
Proof.
  destruct e as [config | shiftKey key | c | el]; simpl; intros H; [discriminate | | |].
  - now destruct (dispatchKeyDown_frame shiftKey key p) as [_ ->].
  - apply cleanup_frame.
  - now destruct (notifyObservers_frame (setNodes (fun l => l ++ [el]) p)) as [_ ->].
Qed.

Lemma run_sessions_eq trace p :
  forallb (fun e => negb (isActivate e)) trace = true ->
  length (sessions (run validSelector trace p)) = length (sessions p).
Proof.
  unfold run. revert p.
  induction trace as [|e trace IH]; intros p H; simpl in *; [reflexivity |].
  apply andb_prop in H as [He Ht]. rewrite (IH _ Ht).
  apply step_sessions_eq. now destruct (isActivate e).
Qed.

Lemma occurrences_NoDup sid l : NoDup l -> occurrences sid l <= 1.
Proof.
  unfold occurrences. induction 1 as [|x l Hx Hl IH]; simpl; [lia |].
  rewrite filter_cons. case_decide; [| exact IH]. subst x. simpl.
  assert (filter (fun x => x = sid) l = []) as ->; [| simpl; lia].
  apply elem_of_nil_inv. intros y Hy. apply list_elem_of_filter in Hy as [-> Hy].
  contradiction.
Qed.

Lemma ownedBy_le_1 sid (l : list (nat * nat)) :
  NoDup l.*1 -> (forall a b, (a, sid) ∈ l -> (b, sid) ∈ l -> a = b) ->
  length (ownedBy sid l) <= 1.
Proof.
  unfold ownedBy. induction l as [|[a j] l IH]; simpl; intros Hnd Hsame; [lia |].
  apply NoDup_cons in Hnd as [Ha Hnd].
  rewrite filter_cons. case_decide as Hj; simpl in Hj.
  - subst j. simpl.
    assert (filter (fun x : nat * nat => x.2 = sid) l = []) as ->; [| simpl; lia].
    apply elem_of_nil_inv. intros [b j] Hb. apply list_elem_of_filter in Hb as [Hj Hb].
    simpl in Hj. subst j. apply Ha.
    assert (a = b) as -> by (apply Hsame; [left | right; exact Hb]).
    apply list_elem_of_fmap. exists (b, sid). auto.
  - apply IH; [exact Hnd |]. intros x y Hx Hy. apply Hsame; right; assumption.
Qed.

Lemma activations_frame (configs : list HighlightConfig) p :
  keydownListeners p = seq 0 (length (sessions p)) ->
  keydownListeners (run validSelector (map Activate configs) p)
    = seq 0 (length (sessions p) + length configs) /\
  length (sessions (run validSelector (map Activate configs) p))
    = length (sessions p) + length configs.
Proof.
  unfold run. revert p.
  induction configs as [|c configs IH]; intros p Hp; simpl.
  - rewrite Nat.add_0_r. auto.
  - destruct (activate_frame c p) as [E1 E2].
    destruct (IH (activate validSelector c p).1) as [F1 F2].
    + rewrite E1, E2, Hp. unfold addListener.
      case_decide as Hin; [apply elem_of_seq in Hin; lia |].
      now rewrite seq_S.
    + rewrite F1, F2, E2. split; [f_equal |]; lia.
Qed.

(** C3, amended: every call of [enableSourceHighlighting] creates a session
    of its own and registers that session's keydown listener, so that [n]
    calls leave [n] keydown listeners; and whatever happens on the page
    (calls, key presses, insertions, cleanups), no session ever has more
    than one keydown listener, one capturing click listener, one observing
    mutation observer or one style element. *)
Theorem one_registration_per_session slot els :
  (forall configs : list HighlightConfig,
     keydownListeners (run validSelector (map Activate configs) (freshPage slot els))
     = seq 0 (length configs)) /\
  (forall trace sid,
     let p := run validSelector trace (freshPage slot els) in
     occurrences sid (keydownListeners p) <= 1 /\
     occurrences sid (clickListeners p) <= 1 /\
     length (ownedBy sid (observers p)) <= 1 /\
     length (ownedBy sid (headStyles p)) <= 1).
Proof.
  split.
  - intros configs.
    destruct (activations_frame configs (freshPage slot els)) as [E _]; [reflexivity |].
    exact E.
  - intros trace sid p.
    assert (Inv p) as HI by apply run_Inv, freshPage_Inv.
    pose proof HI as [].
    repeat split; try (apply occurrences_NoDup; assumption).
    + apply ownedBy_le_1; [assumption |]. intros a b Ha Hb.
      destruct (inv_observer_owner0 a sid Ha) as (_ & s & Hs & Hoa & _).
      pose proof (observers_of_session p sid s b HI Hs Hb). congruence.
    + apply ownedBy_le_1; [assumption |]. intros a b Ha Hb.
      destruct (inv_head_owner0 a sid Ha) as (_ & s & Hs & Hoa).
      pose proof (head_of_session p sid s b HI Hs Hb). congruence.
Qed.

(** C9: the cleanup function of a call, run at any later moment, does not
    throw, and run a second time does not throw and changes nothing; after
    it the session has no keydown listener, no click listener, no observer
    and no style element left, and the marker class is gone.  Where the
    session is the only one of the page nothing at all is left.  Without a
    document the cleanup returned does nothing. *)
Theorem cleanup_twice_safe slot els before config after :
  (enableSourceHighlighting validSelector config None = (None, Ok NoCleanup) /\
   forall p, cleanup NoCleanup p = (p, Ok tt)) /\
  let called := activate validSelector config (run validSelector before (freshPage slot els)) in
  exists sid, called.2 = Ok (SessionCleanup sid) /\
  let p2 := run validSelector after called.1 in
  exists p3,
    cleanup (SessionCleanup sid) p2 = (p3, Ok tt) /\
    cleanup (SessionCleanup sid) p3 = (p3, Ok tt) /\
    (sid ∉ keydownListeners p3) /\ (sid ∉ clickListeners p3) /\
    ownedBy sid (observers p3) = [] /\ ownedBy sid (headStyles p3) = [] /\
    (MARKER_CLASS ∉ bodyClasses p3) /\
    (before = [] -> forallb (fun e => negb (isActivate e)) after = true ->
     keydownListeners p3 = [] /\ clickListeners p3 = [] /\
     observers p3 = [] /\ headStyles p3 = []).
Proof.
  split; [split; [reflexivity | reflexivity] |].
  intros called. subst called.
  set (p0 := run validSelector before (freshPage slot els)).
  rewrite activate_eq. cbn [fst snd].
  exists (length (sessions p0)). split; [reflexivity |].
  set (p1 := if isEnabled (sessionOf config p0)
             then (toggleHighlighting validSelector (length (sessions p0)) (registered config p0)).1
             else registered config p0).
  set (p2 := run validSelector after p1).
  assert (Inv p0) as HI0 by apply run_Inv, freshPage_Inv.
  assert (Inv p1 /\ length (sessions p1) = S (length (sessions p0))) as [HI1 Hlen1].
  { pose proof (activate_Inv config p0 HI0) as H.
    pose proof (activate_frame config p0) as [_ H'].
    rewrite activate_eq in H, H'. auto. }
  assert (Inv p2) as HI2 by apply run_Inv, HI1.
  assert (length (sessions p0) < length (sessions p2)) as Hlt.
  { pose proof (run_sessions after p1). fold p2 in H. lia. }
  destruct (lookup_lt_is_Some_2 _ _ Hlt) as [s Hs].
  exists (cleaned (length (sessions p0)) s p2).
  destruct (cleaned_nothing_left _ _ _ HI2 Hs) as (N1 & N2 & N3 & N4 & N5).
  split; [now apply cleanup_eq |].
  split; [rewrite (cleanup_eq _ s) by exact Hs; now rewrite cleaned_twice |].
  repeat (split; [assumption |]).
  intros -> Hno.
  assert (length (sessions p2) = 1) as Hone.
  { unfold p2. rewrite run_sessions_eq by exact Hno. rewrite Hlen1. reflexivity. }
  change (length (sessions p0)) with 0 in *.
  apply single_session_empty; try assumption.
  pose proof (cleanup_Inv (SessionCleanup 0) p2 HI2) as H.
  now rewrite (cleanup_eq _ s) in H by exact Hs.
Qed.

End NavigatorFacts.

(** C3, as stated: two calls leave two keydown listeners, and one press of
    the chord then leaves two capturing click listeners and two observers. *)
Lemma second_activation_registers_again :
  let twice := run anySelector [Activate emptyConfig; Activate emptyConfig]
                   (freshPage None []) in
  let pressed := run anySelector [KeyDown true "Z"] twice in
  keydownListeners twice = [0; 1] /\
  clickListeners pressed = [0; 1] /\
  observers pressed = [(1, 0); (3, 1)].
Proof. vm_compute. auto. Qed.

Lemma cleanup_twice_safe_witness :
  let called := activate anySelector emptyConfig (freshPage None []) in
  let p2 := run anySelector [KeyDown true "Z"; KeyDown true "Z"; KeyDown true "Z"] called.1 in
  let p3 := (cleanup (SessionCleanup 0) p2).1 in
  clickListeners p2 = [0] /\
  keydownListeners p3 = [] /\ clickListeners p3 = [] /\
  observers p3 = [] /\ headStyles p3 = [].
Proof.
  intros called p2 p3. split; [reflexivity |].
  destruct (cleanup_twice_safe anySelector None [] [] emptyConfig
              [KeyDown true "Z"; KeyDown true "Z"; KeyDown true "Z"])
    as (_ & sid & Hsid & q & Hq & _ & _ & _ & _ & _ & _ & Hall).
  assert (sid = 0) as -> by (vm_compute in Hsid; congruence).
  assert (p3 = q) as -> by exact (f_equal fst Hq).
  apply Hall; reflexivity.
Defined.

(** * The location codec *)

Lemma noControl_dot (f : string) :
  Str.forallb noControl f = true -> Str.forallb dot f = true.
Proof.
  induction f as [|c f IH]; simpl; [reflexivity |].
  intros H. apply andb_prop in H as [Hc Hf]. rewrite (IH Hf), andb_true_r.
  unfold noControl, isControl in Hc. unfold dot, isLineTerminator.
  apply negb_true_iff, orb_false_iff in Hc as [Hc _]. apply N.ltb_ge in Hc.
  apply negb_true_iff, orb_false_iff. split; apply N.eqb_neq; lia.
Qed.

Lemma parse_encode (f : string) (l c : N) :
  f <> "" -> Str.forallb dot f = true ->
  parseSourceLocation (encodeLocation f (Int l) (Int c))
  = Some (mkLoc f (Int l) (Int c) (encodeLocation f (Int l) (Int c))).
Proof.
  intros Hf Hdot.
  destruct (toString_digits l) as (Hl & Hld & Hlv).
  destruct (toString_digits c) as (Hc & Hcd & Hcv).
  unfold parseSourceLocation.
  assert (exists x t, encodeLocation f (Int l) (Int c) = String x t) as (x & t & E).
  { unfold encodeLocation. destruct f as [|x f]; [contradiction |].
    rewrite append_cons. eauto. }
  rewrite E, <- E. unfold encodeLocation.
  rewrite (matchStart_location f _ _ Hf Hdot Hl Hld Hc Hcd), Hlv, Hcv.
  reflexivity.
Qed.

(** C5, as stated: the empty file name, which contains no control
    character, does not come back: its token [":1:0"] is rejected. *)
Lemma empty_file_not_decoded :
  Str.forallb noControl "" = true /\ (1 <= 1)%N /\ (0 <= 0)%N /\
  encodeLocation "" (Int 1) (Int 0) = ":1:0" /\
  parseSourceLocation (encodeLocation "" (Int 1) (Int 0)) = None.
Proof.
  split; [reflexivity |]. split; [lia |]. split; [lia |]. split; reflexivity.
Qed.

(** C5, amended: for every non-empty file name without control characters
    and every line and column below [2^53] (so every line [>= 1] and column
    [>= 0] that is a safe integer), decoding the token [file:line:column]
    gives back the file, the line and the column (with the token itself as
    [raw]). *)
Theorem codec_round_trip (f : string) (l c : N) :
  f <> "" -> Str.forallb noControl f = true ->
  safeInteger l = true -> safeInteger c = true ->
  parseSourceLocation (encodeLocation f (Int l) (Int c))
  = Some {| file := f; line := Int l; column := Int c;
            raw := encodeLocation f (Int l) (Int c) |}.
Proof. intros Hf Hc _ _. apply parse_encode; [exact Hf | now apply noControl_dot]. Qed.

Lemma codec_round_trip_witness :
  parseSourceLocation (encodeLocation "/a/b/Button.tsx" (Int 3) (Int 5))
  = Some {| file := "/a/b/Button.tsx"; line := Int 3; column := Int 5;
            raw := "/a/b/Button.tsx:3:5" |}.
Proof.
  exact (codec_round_trip "/a/b/Button.tsx" 3 5 ltac:(discriminate) eq_refl
           eq_refl eq_refl).
Defined.

(** * Editor dispatch *)

Lemma noDollar_append (a b : string) :
  Str.forallb (fun c => negb (Ascii.eqb c "$")) (a +:+ b)
  = Str.forallb (fun c => negb (Ascii.eqb c "$")) a
    && Str.forallb (fun c => negb (Ascii.eqb c "$")) b.
Proof. apply forallb_append. Qed.

Lemma encodeUnit_no_dollar (c : ascii) :
  Str.forallb (fun c => negb (Ascii.eqb c "$")) (encodeUnit c) = true.
Proof. destruct c as [[] [] [] [] [] [] [] []]; reflexivity. Qed.

(** The replacement text for [{file}] has no dollar sign, so that
    [String.prototype.replace] inserts it as it is. *)
Lemma encodeURIComponent_no_dollar (s : string) :
  Str.forallb (fun c => negb (Ascii.eqb c "$")) (encodeURIComponent s) = true.
Proof.
  induction s as [|c s IH]; [reflexivity |].
  cbn [encodeURIComponent]. now rewrite noDollar_append, encodeUnit_no_dollar, IH.
Qed.

(** C4: a placeholder that occurs twice is substituted once.  The template
    has [{line}] twice; the URL built keeps the second one, where the
    specification's substitution of every occurrence gives [3]. *)
Theorem repeated_placeholder_kept :
  let location := mkLoc "/app/page.tsx" (Int 3) (Int 5) "/app/page.tsx:3:5" in
  let config := mkEditor "myeditor://open?file={file}&line={line}&from={line}" None in
  buildURI location config = "myeditor://open?file=%2Fapp%2Fpage.tsx&line=3&from={line}" /\
  openInEditor true location (Custom config)
  = Ok (Some "myeditor://open?file=%2Fapp%2Fpage.tsx&line=3&from={line}") /\
  specBuildURI location config = "myeditor://open?file=%2Fapp%2Fpage.tsx&line=3&from=3" /\
  Str.occurs "{line}" (buildURI location config) = true.
Proof. repeat split. Qed.

(** C10: the URL handed to [window.open] for a custom editor object does
    not depend on its [useAbsolutePath] field, present or not. *)
Theorem useAbsolutePath_has_no_effect (hasWindow : bool) (location : SourceLocation)
    (template : string) (u1 u2 : option bool) :
  openInEditor hasWindow location (Custom (mkEditor template u1))
  = openInEditor hasWindow location (Custom (mkEditor template u2)).
Proof.
  unfold openInEditor, resolveEditor, buildURI. cbn [handler useAbsolutePath].
  destruct hasWindow; [| reflexivity].
  destruct u1 as [[|]|], u2 as [[|]|]; reflexivity.
Qed.

(** * Configuration merge *)

(** C2, as stated: with loader styles [{outline, outlineOffset}] and
    call-time styles [{outline}] the loader's [outlineOffset] would stay in
    effect; the code uses the built-in [2px] instead. *)
Lemma styles_not_merged :
  let loaderStyles := mkStyles (Some "1px solid red") (Some "9px") None None in
  let callStyles := mkStyles (Some "3px solid #00ff00") None None None in
  let loaderConfig := mkConfig Absent Absent Absent Absent Absent (Value loaderStyles) in
  let config := mkConfig Absent Absent Absent Absent Absent (Value callStyles) in
  r_outlineOffset (defaultStyles (specMergeStyles loaderStyles callStyles)) = "9px" /\
  r_outlineOffset (effectiveStyles loaderConfig config) = "2px" /\
  effectiveStyles loaderConfig config
  <> defaultStyles (specMergeStyles loaderStyles callStyles).
Proof. repeat split. discriminate. Qed.

(** C2, amended: the merge is shallow for every key, [styles] included.  A
    key present in the call-time config has the call-time value, a key
    missing from it has the loader's; a call-time [styles] object replaces
    the loader's as a whole, and the style keys it lacks get the built-in
    defaults, whatever the loader configured. *)
Theorem merge_is_shallow (loaderConfig config : HighlightConfig) :
  let merged := mergeConfig loaderConfig config in
  ((editor config <> Absent -> editor merged = editor config) /\
   (attributeName config <> Absent -> attributeName merged = attributeName config) /\
   (enabledByDefault config <> Absent -> enabledByDefault merged = enabledByDefault config) /\
   (tooltipPathDisplay config <> Absent ->
    tooltipPathDisplay merged = tooltipPathDisplay config) /\
   (showInstructions config <> Absent -> showInstructions merged = showInstructions config) /\
   (styles config <> Absent -> styles merged = styles config)) /\
  ((editor config = Absent -> editor merged = editor loaderConfig) /\
   (attributeName config = Absent -> attributeName merged = attributeName loaderConfig) /\
   (enabledByDefault config = Absent ->
    enabledByDefault merged = enabledByDefault loaderConfig) /\
   (tooltipPathDisplay config = Absent ->
    tooltipPathDisplay merged = tooltipPathDisplay loaderConfig) /\
   (showInstructions config = Absent ->
    showInstructions merged = showInstructions loaderConfig) /\
   (styles config = Absent -> styles merged = styles loaderConfig)) /\
  (forall st, styles config = Value st ->
              effectiveStyles loaderConfig config = defaultStyles st) /\
  (styles config = Absent ->
   effectiveStyles loaderConfig config
   = defaultStyles (orDefault noStyles (styles loaderConfig))).
Proof.
  unfold effectiveStyles, mergeConfig.
  cbn [editor attributeName enabledByDefault tooltipPathDisplay showInstructions styles].
  repeat split;
    try (intros H;
         match type of H with
         | ?f <> Absent => destruct f; [contradiction | reflexivity | reflexivity]
         | ?f = Absent => now rewrite H
         end).
  intros st H. now rewrite H.
Qed.

Lemma merge_is_shallow_witness :
  effectiveStyles
    (mkConfig Absent Absent Absent Absent Absent
       (Value (mkStyles (Some "1px solid red") (Some "9px") None None)))
    (mkConfig (Value (Preset "cursor")) Absent Absent Absent Absent
       (Value (mkStyles (Some "3px solid #00ff00") None None None)))
  = mkResolved "3px solid #00ff00" "2px" "rgba(0, 0, 0, 0.9)" "white".
Proof.
  destruct (merge_is_shallow
    (mkConfig Absent Absent Absent Absent Absent
       (Value (mkStyles (Some "1px solid red") (Some "9px") None None)))
    (mkConfig (Value (Preset "cursor")) Absent Absent Absent Absent
       (Value (mkStyles (Some "3px solid #00ff00") None None None))))
    as (_ & _ & H & _).
  rewrite (H _ eq_refl). reflexivity.
Defined.

(** * The loader *)

Lemma substring_all (s : string) : substring 0 (String.length s) s = s.
Proof. induction s as [|c s IH]; simpl; [reflexivity | now rewrite IH]. Qed.


Import Loader.




Lemma traverse_openings (visit : JSXOpeningElement -> JSXOpeningElement) :
  forall n, openings (traverse visit n) = map visit (openings n).
Proof.
  fix IH 1. intros [el inner | ty d children]; simpl.
  - f_equal. induction inner as [|m r IHr]; simpl; [reflexivity |].
    now rewrite map_app, IH, IHr.
  - induction children as [|m r IHr]; simpl; [reflexivity |].
    now rewrite map_app, IH, IHr.
Qed.

Lemma truthy_encodeLocation (f : string) (l c : number) :
  truthy (encodeLocation f l c) = true.
Proof. destruct f; reflexivity. Qed.

Section Visitor.

Variable pathRelative : string -> string -> string.
Variables (filename attributeName rootDir : string).
Variables (useRelativePaths injectReactSource : bool).

Let visit : JSXOpeningElement -> JSXOpeningElement :=
  visitor pathRelative filename attributeName useRelativePaths rootDir injectReactSource.

(** An element that has the attributes the visitor would add is left as
    it is. *)
Lemma visitor_fixed (node : JSXOpeningElement) :
  existsb (isNamed attributeName) (attributes node) = true ->
  (injectReactSource = true -> existsb (isNamed "__source") (attributes node) = true) ->
  visit node = node.
Proof.
  intros Ha Hs. unfold visit, visitor. destruct node as [t attrs [[l c]|]]; [| reflexivity].
  simpl in *. rewrite Ha. simpl.
  destruct injectReactSource; [| reflexivity].
  now rewrite (Hs eq_refl).
Qed.

(** After a visit, an element with a position has them. *)
Lemma visited_has (pos : N * N) (node : JSXOpeningElement) :
  existsb (isNamed attributeName) (attributes (visit (relocate pos node))) = true /\
  (injectReactSource = true ->
   existsb (isNamed "__source") (attributes (visit (relocate pos node))) = true) /\
  tag (visit (relocate pos node)) = tag node /\
  loc (visit (relocate pos node)) = Some pos.
Proof.
  unfold visit, visitor, relocate. destruct pos as [l c]. cbn [loc tag attributes].
  rewrite truthy_encodeLocation, andb_true_r.
  set (located := JSXAttribute (JSXIdentifier attributeName) _).
  set (sourced := JSXAttribute (JSXIdentifier "__source") _).
  assert (isNamed attributeName located = true) as Hl by apply String.eqb_refl.
  assert (isNamed "__source" sourced = true) as Hs by reflexivity.
  destruct (existsb (isNamed attributeName) (attributes node)) eqn:Ha; cbn [negb];
    destruct injectReactSource; cbn [attributes tag loc];
    repeat split; try discriminate;
    repeat match goal with
           | |- context [if negb ?b then _ else _] => destruct b eqn:?; cbn [negb]
           end;
    intros; rewrite ?existsb_app in *; cbn [existsb] in *;
    rewrite ?Ha, ?Hl, ?Hs, ?orb_true_r;
    try reflexivity; try assumption.
Qed.

Lemma visitor_twice (pos pos' : N * N) (node : JSXOpeningElement) :
  visit (relocate pos' (visit (relocate pos node)))
  = relocate pos' (visit (relocate pos node)).
Proof.
  destruct (visited_has pos node) as (Ha & Hs & _ & _).
  apply visitor_fixed; assumption.
Qed.

Lemma visitor_keeps (node : JSXOpeningElement) :
  existsb (isNamed attributeName) (attributes node) = true ->
  exists extra,
    attributes (visit node) = attributes node ++ extra /\
    existsb (isNamed attributeName) extra = false.
Proof.
  intros Ha. unfold visit, visitor. destruct (loc node) as [[l c]|].
  - rewrite Ha. cbn [negb andb attributes].
    destruct injectReactSource.
    + destruct (existsb (isNamed "__source") (attributes node)) eqn:Hs; cbn [negb].
      * exists []. now rewrite app_nil_r.
      * eexists. split; [reflexivity |]. cbn [existsb isNamed].
        rewrite orb_false_r. apply String.eqb_neq. intros <-. congruence.
    + exists []. now rewrite app_nil_r.
  - exists []. now rewrite app_nil_r.
Qed.

End Visitor.







(** * Further properties of the location codec *)

(** Where a greedy repetition succeeds, it has read some characters of the
    class and the continuation has accepted the rest. *)
Lemma many_inv (p : ascii -> bool) (s : string) k r :
  many p s k = Some r ->
  exists u v, s = u +:+ v /\ Str.forallb p u = true /\ k v = Some r.
Proof.
  induction s as [|c s IH]; simpl; intros H.
  - exists "", "". auto.
  - destruct (p c) eqn:Hc.
    + destruct (many p s k) as [r0|] eqn:Hm.
      * inversion H; subst r0.
        destruct (IH eq_refl) as (u & v & -> & Hu & Hk).
        exists (String c u), v. rewrite append_cons. simpl. rewrite Hc. auto.
      * exists "", (String c s). auto.
    + exists "", (String c s). auto.
Qed.

Lemma exec_tail_inv (v : string) caps k r :
  exec tailRe v caps k = Some r ->
  exists dl dc,
    v = ":" +:+ dl +:+ ":" +:+ dc /\
    dl <> "" /\ Str.forallb isDigit dl = true /\
    dc <> "" /\ Str.forallb isDigit dc = true /\
    k "" ((caps ++ [dl]) ++ [dc]) = Some r.
Proof.
  cbn [tailRe Lit Plus exec]. unfold isChar. intros H.
  destruct v as [|x v]; [discriminate |].
  destruct (Ascii.eqb ":" x) eqn:Hx; [| discriminate].
  apply Ascii.eqb_eq in Hx. subst x.
  destruct v as [|l0 v]; [discriminate |].
  destruct (isDigit l0) eqn:Hl0; [| discriminate].
  apply many_inv in H as (u1 & w & -> & Hu1 & H).
  destruct w as [|y w]; [discriminate |].
  destruct (Ascii.eqb ":" y) eqn:Hy; [| discriminate].
  apply Ascii.eqb_eq in Hy. subst y.
  destruct w as [|c0 w]; [discriminate |].
  destruct (isDigit c0) eqn:Hc0; [| discriminate].
  apply many_inv in H as (u2 & z & -> & Hu2 & H).
  destruct z as [|z0 z]; [| discriminate].
  exists (String l0 u1), (String c0 u2).
  repeat split; try discriminate.
  - str_norm. now rewrite append_nil_r.
  - simpl. now rewrite Hl0.
  - simpl. now rewrite Hc0.
  - rewrite <- H. f_equal. f_equal.
    + f_equal. f_equal. symmetry.
      change (String l0 (u1 +:+ String ":" (String c0 (u2 +:+ ""))))
        with (String l0 u1 +:+ String ":" (String c0 (u2 +:+ ""))).
      apply consumed_append.
    + f_equal. symmetry.
      change (String c0 (u2 +:+ "")) with (String c0 u2 +:+ "").
      apply consumed_append.
Qed.

Lemma matchStart_location_inv (s rest : string) (caps : list string) :
  matchStart locationRe s = Some (rest, caps) ->
  exists f dl dc,
    s = f +:+ ":" +:+ dl +:+ ":" +:+ dc /\
    f <> "" /\ Str.forallb dot f = true /\
    dl <> "" /\ Str.forallb isDigit dl = true /\
    dc <> "" /\ Str.forallb isDigit dc = true /\
    rest = "" /\ caps = [f; dl; dc].
Proof.
  unfold matchStart. change locationRe with (Seq (Group (Plus dot)) tailRe).
  cbn [exec Plus]. intros H.
  destruct s as [|c s]; [discriminate |].
  destruct (dot c) eqn:Hc; [| discriminate].
  apply many_inv in H as (u & v & -> & Hu & H).
  apply exec_tail_inv in H as (dl & dc & -> & Hl & Hld & Hc' & Hcd & H).
  inversion H; subst.
  exists (String c u), dl, dc.
  repeat split; try assumption; try discriminate.
  - simpl. now rewrite Hc.
  - simpl. do 3 f_equal.
    change (String c (u +:+ ":" +:+ dl +:+ ":" +:+ dc))
      with (String c u +:+ (":" +:+ dl +:+ ":" +:+ dc)).
    apply consumed_append.
Qed.

Lemma parseInt10_digits (d : string) :
  d <> "" -> Str.forallb isDigit d = true -> parseInt10 d = Int (parseDigits 0 d).
Proof.
  destruct d as [|c d]; [contradiction |]. simpl. intros _ H.
  apply andb_prop in H as [Hc _]. now rewrite Hc.
Qed.

Lemma decode_raw (s : string) (loc : SourceLocation) :
  parseSourceLocation s = Some loc -> raw loc = s.
Proof.
  unfold parseSourceLocation. intros H.
  destruct s as [|c s]; [discriminate |].
  destruct (matchStart locationRe (String c s)) as [[rest [|f [|l [|c' [|]]]]]|];
    try discriminate.
  now inversion H.
Qed.

(** X1: a token that decodes has the shape [file:digits:digits] with a
    non-empty file free of line terminators, and [raw] is the token as it
    was given; where the value of a group of digits is below [2^53], the
    line, or the column, is that value. *)
Theorem decode_sound (s : string) (loc : SourceLocation) :
  parseSourceLocation s = Some loc ->
  raw loc = s /\
  exists dl dc,
    s = file loc +:+ ":" +:+ dl +:+ ":" +:+ dc /\
    file loc <> "" /\ Str.forallb dot (file loc) = true /\
    dl <> "" /\ Str.forallb isDigit dl = true /\
    dc <> "" /\ Str.forallb isDigit dc = true /\
    (safeInteger (parseDigits 0 dl) = true -> line loc = Int (parseDigits 0 dl)) /\
    (safeInteger (parseDigits 0 dc) = true -> column loc = Int (parseDigits 0 dc)).
Proof.
  unfold parseSourceLocation. intros H.
  destruct s as [|c s]; [discriminate |].
  destruct (matchStart locationRe (String c s)) as [[rest caps]|] eqn:Hm; [| discriminate].
  apply matchStart_location_inv in Hm
    as (f & dl & dc & E & Hf & Hfd & Hl & Hld & Hc & Hcd & -> & ->).
  inversion H; subst loc; cbn [file line column raw].
  split; [reflexivity |]. exists dl, dc.
  rewrite !parseInt10_digits by assumption. repeat split; assumption.
Qed.

Lemma decode_sound_witness :
  exists dl dc,
    "C:\work\App.tsx:012:7" = "C:\work\App.tsx" +:+ ":" +:+ dl +:+ ":" +:+ dc /\
    (safeInteger (parseDigits 0 dl) = true -> Int 12 = Int (parseDigits 0 dl)) /\
    (safeInteger (parseDigits 0 dc) = true -> Int 7 = Int (parseDigits 0 dc)).
Proof.
  destruct (decode_sound "C:\work\App.tsx:012:7"
              (mkLoc "C:\work\App.tsx" (Int 12) (Int 7) "C:\work\App.tsx:012:7") eq_refl)
    as (_ & dl & dc & E & _ & _ & _ & _ & _ & _ & L & C).
  exists dl, dc. auto.
Defined.

(** X2: the file is all that stands before the last two groups of digits:
    for a non-empty file free of line terminators, colons and digits
    included, and two non-empty groups of digits, leading zeros included,
    whose values are below [2^53], the token decodes to that file and to the
    values of the groups. *)
Theorem decode_rightmost_groups (f dl dc : string) :
  f <> "" -> Str.forallb dot f = true ->
  dl <> "" -> Str.forallb isDigit dl = true ->
  dc <> "" -> Str.forallb isDigit dc = true ->
  safeInteger (parseDigits 0 dl) = true -> safeInteger (parseDigits 0 dc) = true ->
  parseSourceLocation (f +:+ ":" +:+ dl +:+ ":" +:+ dc)
  = Some {| file := f; line := Int (parseDigits 0 dl); column := Int (parseDigits 0 dc);
            raw := f +:+ ":" +:+ dl +:+ ":" +:+ dc |}.
Proof.
  intros Hf Hfd Hl Hld Hc Hcd _ _. unfold parseSourceLocation.
  assert (exists x t, f +:+ ":" +:+ dl +:+ ":" +:+ dc = String x t) as (x & t & E).
  { destruct f as [|x f]; [contradiction |]. rewrite append_cons. eauto. }
  rewrite E, <- E.
  rewrite (matchStart_location f dl dc Hf Hfd Hl Hld Hc Hcd).
  now rewrite !parseInt10_digits by assumption.
Qed.

Lemma decode_rightmost_groups_witness :
  parseSourceLocation "C:\work\a:1:2\App.tsx:012:7"
  = Some (mkLoc "C:\work\a:1:2\App.tsx" (Int 12) (Int 7) "C:\work\a:1:2\App.tsx:012:7").
Proof.
  exact (decode_rightmost_groups "C:\work\a:1:2\App.tsx" "012" "7"
           ltac:(discriminate) eq_refl ltac:(discriminate) eq_refl
           ltac:(discriminate) eq_refl eq_refl eq_refl).
Defined.

(** * Reading locations off the document *)

Lemma Element_rect' (P : Element -> Prop) :
  (forall a, P (mkElement a None)) ->
  (forall a p, P p -> P (mkElement a (Some p))) ->
  forall e, P e.
Proof.
  intros Hroot Hchild. fix IH 1. intros [a [p|]].
  - apply Hchild, IH.
  - apply Hroot.
Qed.

(** X3: the location found from an element is the one of the nearest
    element, itself included, whose attribute decodes; elements on the way
    whose attribute is missing, empty or malformed are passed over, and
    the result is [null] exactly when no element up to the root has a
    token that decodes. *)
Theorem nearest_location (element : Element) (attributeName : string) :
  (forall location,
     findNearestSourceLocation element attributeName = Some location <->
     exists nearer el further,
       ancestry element = nearer ++ el :: further /\
       Forall (fun x => getElementSourceLocation x attributeName = None) nearer /\
       getElementSourceLocation el attributeName = Some location) /\
  (findNearestSourceLocation element attributeName = None <->
   Forall (fun x => getElementSourceLocation x attributeName = None) (ancestry element)).
Proof.
  induction element as [a | a p [IHs IHn]] using Element_rect'; cbn [findNearestSourceLocation ancestry].
  - destruct (getElementSourceLocation a attributeName) as [l|] eqn:Ha.
    + split.
      * intros location. split.
        -- intros H. exists [], a, []. repeat split; [constructor | congruence].
        -- intros (nearer & el & further & E & Hn & Hel).
           destruct nearer as [|x nearer]; simpl in E.
           ++ inversion E; subst. congruence.
           ++ inversion E as [[Hx E']]. now destruct nearer.
      * split; [discriminate |]. intros H. apply Forall_cons in H as [H _]. congruence.
    + split.
      * intros location. split; [discriminate |].
        intros (nearer & el & further & E & Hn & Hel).
        destruct nearer as [|x nearer]; simpl in E.
        -- inversion E; subst. congruence.
        -- inversion E as [[Hx E']]. now destruct nearer.
      * split; [intros _; repeat constructor; exact Ha | reflexivity].
  - destruct (getElementSourceLocation a attributeName) as [l|] eqn:Ha.
    + split.
      * intros location. split.
        -- intros H. exists [], a, (ancestry p). repeat split; [constructor | congruence].
        -- intros (nearer & el & further & E & Hn & Hel).
           destruct nearer as [|x nearer]; simpl in E.
           ++ inversion E; subst. congruence.
           ++ inversion E; subst. apply Forall_cons in Hn as [Hx _]. congruence.
      * split; [discriminate |]. intros H. apply Forall_cons in H as [H _]. congruence.
    + split.
      * intros location. rewrite IHs. split.
        -- intros (nearer & el & further & E & Hn & Hel).
           exists (a :: nearer), el, further. rewrite E.
           repeat split; [constructor; assumption | assumption].
        -- intros (nearer & el & further & E & Hn & Hel).
           destruct nearer as [|x nearer]; simpl in E.
           ++ inversion E; subst. congruence.
           ++ inversion E; subst. apply Forall_cons in Hn as [_ Hn].
              exists nearer, el, further. auto.
      * rewrite IHn. split.
        -- intros H. constructor; assumption.
        -- intros H. now apply Forall_cons in H as [_ H].
Qed.

(** X4: [getAllElementsWithSource] returns, in document order, exactly the
    elements whose attribute decodes, each with its decoded location, whose
    [raw] is the attribute of the element; without a document it returns
    the empty list, and with an attribute name that is no valid selector it
    throws the [SyntaxError] of [querySelectorAll]. *)
Theorem all_elements_with_source (validSelector : string -> bool) (p : Page)
    (attributeName : string) :
  getAllElementsWithSource validSelector None attributeName = Ok [] /\
  (validSelector attributeName = true ->
   exists results,
     getAllElementsWithSource validSelector (Some p) attributeName = Ok results /\
     (forall element location,
        In (element, location) results <->
        In element (nodes p) /\
        getElementSourceLocation element attributeName = Some location) /\
     (forall element location,
        In (element, location) results ->
        element !! attributeName = Some (raw location)) /\
     results.*1 = List.filter
                    (fun element =>
                       match getElementSourceLocation element attributeName with
                       | Some _ => true
                       | None => false
                       end) (nodes p)) /\
  (validSelector attributeName = false ->
   getAllElementsWithSource validSelector (Some p) attributeName = Throw "SyntaxError").
Proof.
  split; [reflexivity |].
  split; [| intros Hv; unfold getAllElementsWithSource; now rewrite Hv].
  intros Hv. unfold getAllElementsWithSource. rewrite Hv.
  eexists. split; [reflexivity |].
  assert (forall element location,
            getElementSourceLocation element attributeName = Some location ->
            element !! attributeName = Some (raw location)) as Hraw.
  { intros element location H. unfold getElementSourceLocation in H.
    destruct (element !! attributeName) as [[|c t]|]; try discriminate.
    apply decode_raw in H as ->. reflexivity. }
  split; [| split].
  - intros element location. rewrite in_flat_map. split.
    + intros (x & Hx & Hin).
      destruct (x !! attributeName); [| contradiction].
      destruct (getElementSourceLocation x attributeName) as [l|] eqn:Hl; [| contradiction].
      destruct Hin as [Hin | []]. inversion Hin; subst. auto.
    + intros [Hin Hl]. exists element. split; [exact Hin |].
      rewrite (Hraw _ _ Hl), Hl. now left.
  - intros element location. rewrite in_flat_map.
    intros (x & Hx & Hin).
    destruct (x !! attributeName) eqn:Hx'; [| contradiction].
    destruct (getElementSourceLocation x attributeName) as [l|] eqn:Hl; [| contradiction].
    destruct Hin as [Hin | []]. inversion Hin; subst. now apply Hraw.
  - induction (nodes p) as [|x l IH]; [reflexivity |]. simpl.
    rewrite fmap_app, IH.
    destruct (getElementSourceLocation x attributeName) as [loc|] eqn:Hl.
    + now rewrite (Hraw _ _ Hl).
    + now destruct (x !! attributeName).
Qed.

Lemma all_elements_with_source_witness :
  exists results,
    getAllElementsWithSource anySelector
      (Some (freshPage None [ {[ "data-insp-path" := "/a/B.tsx:3:5" ]};
                              {[ "data-insp-path" := "broken" ]};
                              {[ "class" := "x" ]} ]))
      "data-insp-path" = Ok results /\
    map snd results = [mkLoc "/a/B.tsx" (Int 3) (Int 5) "/a/B.tsx:3:5"].
Proof.
  destruct (proj1 (proj2 (all_elements_with_source anySelector
                     (freshPage None [ {[ "data-insp-path" := "/a/B.tsx:3:5" ]};
                                       {[ "data-insp-path" := "broken" ]};
                                       {[ "class" := "x" ]} ])
                     "data-insp-path")) eq_refl) as (results & E & _).
  exists results. split; [exact E |].
  vm_compute in E. inversion E. reflexivity.
Defined.

Lemma nearest_location_witness :
  let grandparent := mkElement {[ "data-insp-path" := "/a/b/Button.tsx:3:5" ]} None in
  let parent := mkElement {[ "data-insp-path" := "not a token" ]} (Some grandparent) in
  let leaf := mkElement ∅ (Some parent) in
  findNearestSourceLocation leaf "data-insp-path"
  = Some (mkLoc "/a/b/Button.tsx" (Int 3) (Int 5) "/a/b/Button.tsx:3:5").
Proof.
  intros grandparent parent leaf.
  apply (proj1 (nearest_location leaf "data-insp-path")).
  exists [ ∅; {[ "data-insp-path" := "not a token" ]} ],
         {[ "data-insp-path" := "/a/b/Button.tsx:3:5" ]}, [].
  split; [reflexivity |]. split; [repeat constructor | reflexivity].
Defined.

(** * Building the editor URL *)

Lemma drop_append (a b : string) : Str.drop (String.length a) (a +:+ b) = b.
Proof.
  unfold Str.drop. rewrite length_append.
  replace (String.length a + String.length b - String.length a)
    with (String.length b) by lia.
  induction a as [|x a IH]; [| rewrite append_cons; exact IH].
  rewrite append_nil_l. apply substring_all.
Qed.



(** Text that lacks the first character of the pattern is stepped over. *)
Lemma replace_skip (x : ascii) (pat rep a s : string) :
  lacks x a = true ->
  Str.replace (String x pat) rep (a +:+ s) = a +:+ Str.replace (String x pat) rep s.
Proof.
  induction a as [|c a IH]; intros H; [reflexivity |].
  rewrite !append_cons. simpl in H. apply andb_prop in H as [Hc Ha].
  cbn [Str.replace String.prefix].
  destruct (ascii_dec x c) as [-> | _].
  - rewrite Ascii.eqb_refl in Hc. discriminate.
  - now rewrite (IH Ha).
Qed.

Lemma replace_absent (x : ascii) (pat rep s : string) :
  lacks x s = true -> Str.replace (String x pat) rep s = s.
Proof.
  intros H. rewrite <- (append_nil_r s) at 1.
  rewrite replace_skip by exact H. simpl. apply append_nil_r.
Qed.


Lemma forallb_impl (p q : ascii -> bool) (s : string) :
  (forall c, p c = true -> q c = true) ->
  Str.forallb p s = true -> Str.forallb q s = true.
Proof.
  intros Hpq. induction s as [|c s IH]; [reflexivity |]. simpl.
  intros H. apply andb_prop in H as [Hc Hs]. now rewrite (Hpq c Hc), IH.
Qed.

Lemma encodeUnit_safe (c : ascii) : Str.forallb uriSafe (encodeUnit c) = true.
Proof. destruct c as [[] [] [] [] [] [] [] []]; reflexivity. Qed.

Lemma encodeUnit_unreserved (c : ascii) :
  uriUnreserved c = true -> encodeUnit c = String c "".
Proof. intros H. unfold encodeUnit. now rewrite H. Qed.



Lemma encodeURIComponent_safe (s : string) :
  Str.forallb uriSafe (encodeURIComponent s) = true.
Proof.
  induction s as [|c s IH]; [reflexivity |].
  cbn [encodeURIComponent]. now rewrite forallb_append, encodeUnit_safe, IH.
Qed.

(** X5: [encodeURIComponent] writes nothing but unreserved characters and
    percent signs, and leaves a string of unreserved characters as it is. *)
Theorem encoded_alphabet (s : string) :
  Str.forallb uriSafe (encodeURIComponent s) = true /\
  (Str.forallb uriUnreserved s = true -> encodeURIComponent s = s).
Proof.
  split; [apply encodeURIComponent_safe |].
  induction s as [|c s IH]; [reflexivity |].
  cbn [encodeURIComponent]. simpl. intros H. apply andb_prop in H as [Hc Hs].
  now rewrite (encodeUnit_unreserved c Hc), (IH Hs).
Qed.

Lemma encoded_alphabet_witness :
  encodeURIComponent "src/app/page.tsx" = "src%2Fapp%2Fpage.tsx" /\
  encodeURIComponent "Button.tsx" = "Button.tsx".
Proof.
  split; [reflexivity |].
  exact (proj2 (encoded_alphabet "Button.tsx") eq_refl).
Defined.








(** * The states of a session *)

Section SessionFacts.

Variable validSelector : string -> bool.

(** What [toggleHighlighting] does, by the state of the session. *)
Lemma toggle_eq (sid : nat) (s : Session) (p : Page) :
  sessions p !! sid = Some s ->
  toggleHighlighting validSelector sid p =
  if isEnabled s then (switchedOff sid s p, Ok tt)
  else if validSelector (s_attributeName s) then (switchedOn sid s p, Ok tt)
  else (styled sid s p, Throw "SyntaxError").
Proof.
  intros Hs. unfold toggleHighlighting.
  assert (sid < length (sessions p)) as Hlt by (eapply lookup_lt_Some; eassumption).
  rewrite (bind_read _ _ _ _ Hs), (bind_write _ _ _ _ _ Hs).
  destruct (isEnabled s) eqn:Hen; cbn [negb].
  - rewrite !bind_modify.
    erewrite bind_read by (apply lookup_withSession; exact Hlt).
    cbn [setEnabled observer].
    destruct (observer s) as [o|] eqn:Ho.
    + rewrite bind_modify. erewrite write_last by (apply lookup_withSession; exact Hlt).
      f_equal. apply Page_eq; unfold switchedOff, setObserver, setEnabled; simpl;
        rewrite ?Ho, ?list_insert_insert_eq; reflexivity.
    + unfold ret. f_equal.
      apply Page_eq; unfold switchedOff, setObserver, setEnabled; simpl;
        rewrite ?Ho; reflexivity.
  - unfold createStyles, processElements.
    rewrite bind_assoc. erewrite bind_read by (apply lookup_withSession; exact Hlt).
    cbn [setEnabled styleElement].
    destruct (styleElement s) as [e|] eqn:He.
    + rewrite bind_ret, bind_assoc.
      erewrite bind_read by (apply lookup_withSession; exact Hlt).
      change (s_attributeName (setEnabled true s)) with (s_attributeName s).
      destruct (validSelector (s_attributeName s)).
      * rewrite !bind_modify, bind_new.
        erewrite bind_write by (apply lookup_withSession; exact Hlt).
        unfold modify. f_equal.
        apply Page_eq;
          unfold switchedOn, styled, styleOf, setObserver, setEnabled, setStyleElement;
          simpl; rewrite ?He, ?list_insert_insert_eq; reflexivity.
      * rewrite bind_throw. f_equal.
        apply Page_eq;
          unfold switchedOn, styled, styleOf, setObserver, setEnabled, setStyleElement;
          simpl; rewrite ?He, ?list_insert_insert_eq; reflexivity.
    + rewrite ?bind_assoc, bind_new, ?bind_assoc.
      erewrite bind_write by (apply lookup_withSession; exact Hlt).
      rewrite ?bind_assoc, bind_modify, ?bind_assoc.
      erewrite bind_read by (simpl; rewrite list_insert_insert_eq;
                             apply list_lookup_insert_eq; exact Hlt).
      cbn [setStyleElement setEnabled s_attributeName].
      destruct (validSelector (s_attributeName s)).
      * rewrite !bind_modify, bind_new.
        erewrite bind_write by (simpl; rewrite list_insert_insert_eq;
                                apply list_lookup_insert_eq; exact Hlt).
        unfold modify. f_equal.
        apply Page_eq;
          unfold switchedOn, styled, styleOf, setObserver, setEnabled, setStyleElement;
          simpl; rewrite ?He, ?list_insert_insert_eq; reflexivity.
      * rewrite bind_throw. f_equal.
        apply Page_eq;
          unfold switchedOn, styled, styleOf, setObserver, setEnabled, setStyleElement;
          simpl; rewrite ?He, ?list_insert_insert_eq; reflexivity.
Qed.

(** X8: whatever [enabledByDefault] says, a session is inactive once
    [enableSourceHighlighting] returns: the initial toggle takes the flag from
    set to unset and runs the switching-off branch. No style block, observer
    or click listener is set up and no element is touched; with
    [enabledByDefault] the marker class is taken off the body, also when
    another session had put it there. *)
Theorem session_starts_inactive (slot : option HighlightConfig)
    (els : list (gmap string string)) (trace : list Event) (config : HighlightConfig) :
  let p := run validSelector trace (freshPage slot els) in
  let sid := length (sessions p) in
  let called := activate validSelector config p in
  called.2 = Ok (SessionCleanup sid) /\
  (exists s, sessions called.1 !! sid = Some s /\ isEnabled s = false /\
             styleElement s = None /\ observer s = None) /\
  (sid ∉ clickListeners called.1) /\
  nodes called.1 = nodes p /\ headStyles called.1 = headStyles p /\
  observers called.1 = observers p /\
  bodyClasses called.1 =
    (if mergedEnabledByDefault config p
     then bodyClasses p ∖ {[MARKER_CLASS]} else bodyClasses p).
Proof.
  intros p sid called.
  assert (Inv p) as HI by (apply run_Inv, freshPage_Inv).
  assert (sid ∉ clickListeners p) as Hfresh.
  { intros Hin. apply (inv_click_sid p HI) in Hin. unfold sid in Hin. lia. }
  subst called. rewrite activate_eq. cbn [fst snd].
  split; [reflexivity |].
  change (mergedEnabledByDefault config p) with (isEnabled (sessionOf config p)).
  destruct (isEnabled (sessionOf config p)) eqn:Hen.
  - rewrite (toggle_eq _ _ _ (lookup_registered config p)), Hen. cbn [fst].
    assert (length (sessions p) < length (sessions (registered config p))) as Hlt.
    { unfold registered, setKeydown, setSessions. simpl. rewrite length_app. simpl. lia. }
    split; [| split; [| repeat split]].
    + eexists. split; [apply list_lookup_insert_eq; exact Hlt |].
      repeat split; reflexivity.
    + unfold switchedOff. simpl. intros Hin.
      apply elem_of_removeListener in Hin. tauto.
  - split; [| split; [exact Hfresh | repeat split]].
    eexists. split; [apply lookup_registered |].
    split; [exact Hen | split; reflexivity].
Qed.

Lemma lookup_map {A B} (f : A -> B) (l : list A) (i : nat) :
  map f l !! i = f <$> l !! i.
Proof. revert i. induction l as [|x l IH]; intros [|i]; simpl; auto. Qed.

Lemma stamp_other (s : Session) (el : gmap string string) (k : string) :
  k ≠ TOOLTIP_ATTRIBUTE -> stamp s el !! k = el !! k.
Proof.
  intros Hk. unfold stamp.
  destruct (el !! s_attributeName s) as [[|c t]|]; try reflexivity;
    destruct (el !! TOOLTIP_ATTRIBUTE); try reflexivity.
  now rewrite lookup_insert_ne by congruence.
Qed.

Lemma stamp_kept (s : Session) (el : gmap string string) :
  is_Some (el !! TOOLTIP_ATTRIBUTE) -> stamp s el = el.
Proof.
  intros [v Hv]. unfold stamp. rewrite Hv.
  now destruct (el !! s_attributeName s).
Qed.

Lemma stamp_done (s : Session) (el : gmap string string) (c : ascii) (t : string) :
  el !! s_attributeName s = Some (String c t) -> is_Some (stamp s el !! TOOLTIP_ATTRIBUTE).
Proof.
  intros Hn. unfold stamp. rewrite Hn.
  destruct (el !! TOOLTIP_ATTRIBUTE) as [v|] eqn:Hv; [rewrite Hv; eauto |].
  rewrite lookup_insert_eq. eauto.
Qed.

Lemma stamp_twice (s : Session) (el : gmap string string) :
  stamp s (stamp s el) = stamp s el.
Proof.
  destruct (el !! TOOLTIP_ATTRIBUTE) as [v|] eqn:Hv.
  - now rewrite !(stamp_kept s el) by eauto.
  - destruct (el !! s_attributeName s) as [[|c t]|] eqn:Hn.
    + assert (stamp s el = el) as E by (unfold stamp; now rewrite Hn, Hv).
      now rewrite !E.
    + apply stamp_kept. eapply stamp_done. exact Hn.
    + assert (stamp s el = el) as E by (unfold stamp; now rewrite Hn).
      now rewrite !E.
Qed.

(** X9: [processElements] only ever adds the tooltip attribute: every
    other attribute of every element stays, an element that has a tooltip
    already is left as it is, an element with a non-empty location gets one,
    no element is added or dropped, and a second run changes nothing more
    and ends as the first did. *)
Theorem processElements_idempotent (sid : nat) (p : Page) :
  let first := processElements validSelector sid p in
  processElements validSelector sid first.1 = first /\
  length (nodes first.1) = length (nodes p) /\
  forall i el, nodes p !! i = Some el ->
    exists el', nodes first.1 !! i = Some el' /\
      (forall k, k ≠ TOOLTIP_ATTRIBUTE -> el' !! k = el !! k) /\
      (is_Some (el !! TOOLTIP_ATTRIBUTE) -> el' = el) /\
      (forall s c t, first.2 = Ok tt -> sessions p !! sid = Some s ->
         el !! s_attributeName s = Some (String c t) ->
         is_Some (el' !! TOOLTIP_ATTRIBUTE)).
Proof.
  unfold processElements.
  destruct (sessions p !! sid) as [s|] eqn:Hs.
  - rewrite (bind_read _ _ _ _ Hs).
    destruct (validSelector (s_attributeName s)) eqn:Hv.
    + unfold modify. cbn [fst snd].
      assert (sessions (setNodes (map (stamp s)) p) !! sid = Some s) as Hs' by exact Hs.
      rewrite (bind_read _ _ _ _ Hs'), Hv.
      split; [| split].
      * f_equal. apply Page_eq; try reflexivity.
        unfold setNodes. simpl. rewrite map_map.
        apply map_ext. intros el. apply stamp_twice.
      * unfold setNodes. simpl. apply length_map.
      * intros i el Hi. exists (stamp s el). split.
        { unfold setNodes. simpl. now rewrite lookup_map, Hi. }
        split; [intros k; apply stamp_other |].
        split; [apply stamp_kept |].
        intros s0 c t _ Hs0 Hn. assert (s0 = s) as -> by congruence.
        eapply stamp_done. exact Hn.
    + unfold throw. cbn [fst snd]. rewrite (bind_read _ _ _ _ Hs), Hv.
      split; [reflexivity | split; [reflexivity |]].
      intros i el Hi. exists el. repeat split; auto. intros; discriminate.
  - unfold bind, readSession. rewrite Hs. cbn [fst snd]. rewrite Hs.
    split; [reflexivity | split; [reflexivity |]].
    intros i el Hi. exists el. repeat split; auto. intros; discriminate.
Qed.

(** A key other than the chord does nothing. *)
Lemma fold_left_id {A B} (f : A -> B -> A) (l : list B) (a : A) :
  (forall a b, f a b = a) -> fold_left f l a = a.
Proof. intros H. induction l as [|b l IH]; simpl; [reflexivity | now rewrite H]. Qed.


Lemma filter_fresh (o : nat) (sid : nat) (l : list (nat * nat)) :
  (forall x, x ∈ l.*1 -> x < o) ->
  filter (fun x => x.1 ≠ o) (l ++ [(o, sid)]) = l.
Proof.
  intros H. rewrite filter_app, filter_cons_False, filter_nil, app_nil_r
    by (simpl; intros E; now apply E).
  induction l as [|[a b] l IH]; [reflexivity |].
  rewrite filter_cons_True.
  - f_equal. apply IH. intros x Hx. apply H. simpl. now right.
  - simpl. assert (a < o) by (apply H; simpl; left). lia.
Qed.

(** X11: switching a session on and off again leaves the observers and the
    keydown listeners as they were and no click listener of the session; the
    style block it created stays in the head, the session keeps referring to
    it, and the tooltips stay on the elements. *)
Theorem switching_off_keeps_style (sid : nat) (s : Session) (p : Page) :
  Inv p -> sessions p !! sid = Some s -> isEnabled s = false ->
  validSelector (s_attributeName s) = true ->
  let on := toggleHighlighting validSelector sid p in
  let off := toggleHighlighting validSelector sid on.1 in
  on.2 = Ok tt /\ off.2 = Ok tt /\
  observers off.1 = observers p /\
  keydownListeners off.1 = keydownListeners p /\
  clickListeners off.1 = removeListener sid (clickListeners p) /\
  bodyClasses off.1 = bodyClasses p ∖ {[MARKER_CLASS]} /\
  nodes off.1 = map (stamp s) (nodes p) /\
  headStyles off.1 =
    (match styleElement s with
     | Some _ => headStyles p
     | None => headStyles p ++ [(nextObject p, sid)]
     end) /\
  exists s' e, sessions off.1 !! sid = Some s' /\ isEnabled s' = false /\
               observer s' = None /\ styleElement s' = Some e /\
               (styleElement s = None -> e = nextObject p).
Proof.
  intros HI Hs Hen Hv on off. subst off on.
  assert (sid < length (sessions p)) as Hlt by (eapply lookup_lt_Some; eassumption).
  rewrite (toggle_eq _ _ _ Hs), Hen, Hv. cbn [fst snd].
  assert (sessions (switchedOn sid s p) !! sid
          = Some (mkSession (s_editor s) (s_attributeName s) (s_tooltipPathDisplay s)
                    (s_defaultStyles s) true (Some (styleOf s p).1)
                    (Some (styleOf s p).2))) as Hs'
    by (apply list_lookup_insert_eq; exact Hlt).
  rewrite (toggle_eq _ _ _ Hs'). cbn [isEnabled fst snd].
  split; [reflexivity |]. split; [reflexivity |].
  split; [| split; [reflexivity | split; [| split; [| split; [reflexivity | split]]]]].
  - unfold switchedOff, switchedOn. simpl. apply filter_fresh.
    intros x Hx. apply (fresh_observer p x HI) in Hx.
    unfold styleOf. destruct (styleElement s); simpl; lia.
  - unfold switchedOff, switchedOn, removeListener. simpl.
    unfold addListener. destruct (decide (sid ∈ clickListeners p)); [reflexivity |].
    rewrite filter_app, filter_cons_False, filter_nil, app_nil_r by tauto.
    reflexivity.
  - unfold switchedOff, switchedOn. simpl. apply set_eq. intros x.
    rewrite !elem_of_difference, elem_of_union. tauto.
  - unfold switchedOff, switchedOn, styled. simpl. reflexivity.
  - eexists _, _. split.
    + unfold switchedOff. simpl. apply list_lookup_insert_eq.
      rewrite length_insert. exact Hlt.
    + simpl. repeat split. intros He. unfold styleOf. now rewrite He.
Qed.

(** X12: with an attribute name that is no valid selector, highlighting
    cannot be switched on: Shift+Z on the inactive session ends in a
    [SyntaxError], and however often it is pressed no element is touched and
    no click listener, observer or marker class is added. *)
Theorem invalid_name_never_on (sid : nat) (s : Session) (p : Page) (n : nat) :
  sessions p !! sid = Some s ->
  validSelector (s_attributeName s) = false ->
  (isEnabled s = false ->
   (keyboardHandler validSelector sid true "Z" p).2 = Throw "SyntaxError") /\
  let q := presses validSelector sid n p in
  (exists s', sessions q !! sid = Some s' /\ s_attributeName s' = s_attributeName s) /\
  nodes q = nodes p /\
  (forall h, h ∈ clickListeners q -> h ∈ clickListeners p) /\
  (forall o, o ∈ observers q -> o ∈ observers p) /\
  bodyClasses q ⊆ bodyClasses p.
Proof.
  intros Hs Hv. split.
  - intros Hen. unfold keyboardHandler. cbn [andb String.eqb Ascii.eqb Bool.eqb].
    now rewrite (toggle_eq _ _ _ Hs), Hen, Hv.
  - induction n as [|n IH]; cbn zeta in *.
    + simpl. split; [eauto |]. repeat split; auto.
    + destruct IH as ((s' & Hs' & Hname) & Hnodes & Hclick & Hobs & Hcls).
      assert (sid < length (sessions (presses validSelector sid n p))) as Hlt
        by (eapply lookup_lt_Some; eassumption).
      cbn [presses].
      set (q := presses validSelector sid n p) in *.
      unfold keyboardHandler. cbn [andb String.eqb Ascii.eqb Bool.eqb].
      rewrite (toggle_eq _ _ _ Hs'), Hname, Hv.
      destruct (isEnabled s'); cbn [fst].
      * split; [eexists; split;
                [unfold switchedOff; simpl; apply list_lookup_insert_eq; exact Hlt
                | exact Hname] |].
        unfold switchedOff. simpl. split; [exact Hnodes |].
        split; [intros h Hh; apply elem_of_removeListener in Hh; apply Hclick; tauto |].
        split.
        -- intros o Ho. apply Hobs.
           destruct (observer s'); [| exact Ho].
           now apply list_elem_of_filter in Ho.
        -- intros x Hx. apply Hcls. apply elem_of_difference in Hx. tauto.
      * split; [eexists; split;
                [unfold styled; simpl; apply list_lookup_insert_eq; exact Hlt
                | exact Hname] |].
        unfold styled. simpl. repeat split; assumption.
Qed.

(** X13: a key other than Shift+Z changes nothing, whatever sessions
    listen. *)
Theorem other_keys_ignored (shiftKey : bool) (key : string) (p : Page) :
  shiftKey && String.eqb key "Z" = false ->
  dispatchKeyDown validSelector shiftKey key p = p.
Proof.
  intros H. unfold dispatchKeyDown. apply fold_left_id.
  intros q sid. unfold keyboardHandler. now rewrite H.
Qed.

(** ** Clicks *)

Lemma fold_left_preserves {A B} (P : A -> Prop) (f : A -> B -> A) (l : list B) (a : A) :
  (forall a b, P a -> P (f a b)) -> P a -> P (fold_left f l a).
Proof. intros H. revert a. induction l as [|b l IH]; simpl; auto. Qed.

Lemma toggle_ClickOn (sid : nat) (p : Page) :
  ClickOn p -> ClickOn (toggleHighlighting validSelector sid p).1.
Proof.
  intros HC.
  destruct (sessions p !! sid) as [s|] eqn:Hs;
    [| unfold toggleHighlighting, bind, readSession; rewrite Hs; exact HC].
  assert (sid < length (sessions p)) as Hlt by (eapply lookup_lt_Some; eassumption).
  rewrite (toggle_eq _ _ _ Hs).
  destruct (isEnabled s); [| destruct (validSelector (s_attributeName s))];
    cbn [fst]; intros h Hh.
  - unfold switchedOff in *. simpl in *.
    apply elem_of_removeListener in Hh as [Hne Hh].
    rewrite list_lookup_insert_ne by congruence. now apply HC.
  - unfold switchedOn in *. simpl in *.
    destruct (decide (h = sid)) as [-> | Hne].
    + eexists. split; [apply list_lookup_insert_eq; exact Hlt | reflexivity].
    + rewrite list_lookup_insert_ne by congruence. apply HC.
      apply elem_of_addListener in Hh. tauto.
  - unfold styled in *. simpl in *.
    destruct (decide (h = sid)) as [-> | Hne].
    + eexists. split; [apply list_lookup_insert_eq; exact Hlt | reflexivity].
    + rewrite list_lookup_insert_ne by congruence. now apply HC.
Qed.

Lemma process_ClickOn (sid : nat) (p : Page) :
  ClickOn p -> ClickOn (processElements validSelector sid p).1.
Proof.
  intros HC h Hh.
  destruct (process_frame validSelector sid p) as (_ & Hc & _ & _ & _ & Hs & _).
  rewrite Hc in Hh. rewrite Hs. now apply HC.
Qed.

Lemma cleanup_ClickOn (c : Cleanup) (p : Page) : ClickOn p -> ClickOn (cleanup c p).1.
Proof.
  intros HC. destruct c as [|sid]; [exact HC |].
  destruct (sessions p !! sid) as [s|] eqn:Hs.
  - rewrite (cleanup_eq _ _ _ Hs). cbn [fst]. intros h Hh.
    unfold cleaned, setClasses, setObservers, setHead, setClick, setKeydown in *.
    simpl in *. apply elem_of_removeListener in Hh. apply HC. tauto.
  - unfold cleanup. rewrite !bind_modify. unfold bind, readSession.
    unfold setClick, setKeydown. simpl. rewrite Hs. simpl. intros h Hh.
    simpl in *. apply elem_of_removeListener in Hh. apply HC. tauto.
Qed.

Lemma activate_ClickOn (config : HighlightConfig) (p : Page) :
  ClickOn p -> ClickOn (activate validSelector config p).1.
Proof.
  intros HC. rewrite activate_eq. cbn [fst].
  assert (ClickOn (registered config p)) as HR.
  { intros h Hh. unfold registered, setKeydown, setSessions in *. simpl in *.
    destruct (HC h Hh) as (s & Hs & Hen). exists s. split; [| exact Hen].
    now apply lookup_app_l_Some. }
  destruct (isEnabled (sessionOf config p)); [now apply toggle_ClickOn | exact HR].
Qed.

Lemma step_ClickOn (e : Event) (p : Page) : ClickOn p -> ClickOn (step validSelector e p).
Proof.
  intros HC. destruct e as [config | shiftKey key | c | el]; cbn [step].
  - now apply activate_ClickOn.
  - unfold dispatchKeyDown. apply fold_left_preserves; [| exact HC].
    intros q sid Hq. unfold keyboardHandler.
    destruct (shiftKey && String.eqb key "Z"); [now apply toggle_ClickOn | exact Hq].
  - now apply cleanup_ClickOn.
  - unfold notifyObservers. apply fold_left_preserves.
    + intros q o Hq. now apply process_ClickOn.
    + exact HC.
Qed.

Lemma run_ClickOn (trace : list Event) (p : Page) :
  ClickOn p -> ClickOn (run validSelector trace p).
Proof.
  unfold run. apply fold_left_preserves. intros q e. apply step_ClickOn.
Qed.

(** X14: on a page reached by any activations, key presses, cleanups and
    insertions, every registered click listener belongs to a session that is
    switched on, so its guard never fires: a click runs, once per such
    session and in the order of registration, the search for the nearest
    location above the target; where there is one the event is stopped and
    the editor URL opened, where there is none the event is left alone. *)
Theorem click_opens_nearest (slot : option HighlightConfig)
    (els : list (gmap string string)) (trace : list Event)
    (hasWindow : bool) (target : Element) :
  let p := run validSelector trace (freshPage slot els) in
  Forall2 (fun sid outcome =>
             exists s, sessions p !! sid = Some s /\ isEnabled s = true /\
                       outcome = opening hasWindow s target)
          (clickListeners p) (dispatchClick hasWindow target p).
Proof.
  intros p.
  assert (ClickOn p) as HC.
  { apply run_ClickOn. intros h Hh. unfold freshPage in Hh. simpl in Hh.
    now apply elem_of_nil in Hh. }
  unfold dispatchClick. unfold ClickOn in HC.
  induction (clickListeners p) as [|sid l IH]; [constructor |].
  destruct (HC sid) as (s & Hs & Hen); [left |].
  cbn [flat_map]. rewrite Hs. cbn [app]. constructor.
  - exists s. split; [exact Hs |]. split; [exact Hen |].
    unfold clickHandler, opening. now rewrite Hen.
  - apply IH. intros h Hh. apply HC. now right.
Qed.

End SessionFacts.


Lemma switching_off_keeps_style_witness :
  let p := (activate anySelector emptyConfig
              (freshPage None [ {[ "data-insp-path" := "/a/B.tsx:3:5" ]} ])).1 in
  let on := toggleHighlighting anySelector 0 p in
  let off := toggleHighlighting anySelector 0 on.1 in
  observers off.1 = [] /\ headStyles off.1 = [(0, 0)].
Proof.
  intros p on off.
  destruct (switching_off_keeps_style anySelector 0
              (sessionOf emptyConfig (freshPage None [ {[ "data-insp-path" := "/a/B.tsx:3:5" ]} ]))
              p (activate_Inv anySelector emptyConfig _ (freshPage_Inv _ _))
              eq_refl eq_refl eq_refl)
    as (_ & _ & Hobs & _ & _ & _ & _ & Hhead & _).
  split; [exact Hobs | exact Hhead].
Defined.

Lemma invalid_name_never_on_witness :
  let p := (activate (fun _ => false) emptyConfig
              (freshPage None [ {[ "data-insp-path" := "/a/B.tsx:3:5" ]} ])).1 in
  (keyboardHandler (fun _ => false) 0 true "Z" p).2 = Throw "SyntaxError" /\
  nodes (presses (fun _ => false) 0 5 p) = nodes p.
Proof.
  intros p.
  destruct (invalid_name_never_on (fun _ => false) 0
              (sessionOf emptyConfig (freshPage None [ {[ "data-insp-path" := "/a/B.tsx:3:5" ]} ]))
              p 5 eq_refl eq_refl)
    as (Hthrow & _ & Hnodes & _).
  split; [exact (Hthrow eq_refl) | exact Hnodes].
Defined.

Lemma other_keys_ignored_witness :
  let p := (activate anySelector emptyConfig (freshPage None [])).1 in
  dispatchKeyDown anySelector true "z" p = p.
Proof. intros p. exact (other_keys_ignored anySelector true "z" p eq_refl). Defined.

(** * The loader's visitor *)

Lemma filter_none {A} (f : A -> bool) (l : list A) :
  existsb f l = false -> List.filter f l = [].
Proof.
  induction l as [|x l IH]; simpl; [reflexivity |].
  intros H. apply orb_false_iff in H as [Hx Hl]. rewrite Hx. now apply IH.
Qed.

Lemma filter_app_list {A} (f : A -> bool) (l1 l2 : list A) :
  List.filter f (l1 ++ l2) = List.filter f l1 ++ List.filter f l2.
Proof. induction l1 as [|x l1 IH]; simpl; [reflexivity |]. destruct (f x); simpl; now rewrite IH. Qed.

Lemma relocate_same (pos : N * N) (node : JSXOpeningElement) :
  loc node = Some pos -> relocate pos node = node.
Proof. destruct node as [t a l]. simpl. now intros ->. Qed.

Lemma traverse_ext (f g : JSXOpeningElement -> JSXOpeningElement) :
  forall n, (forall el, In el (openings n) -> f el = g el) -> traverse f n = traverse g n.
Proof.
  fix IH 1. intros [el inner | ty d children] H; simpl in *.
  - rewrite (H el) by now left. f_equal.
    assert (forall el', In el' (flat_map openings inner) -> f el' = g el') as H'
      by (intros el' Hin; apply H; now right).
    clear H. induction inner as [|m r IHr]; simpl in *; [reflexivity |].
    rewrite IH by (intros el' Hin; apply H', in_or_app; now left).
    f_equal. apply IHr. intros el' Hin. apply H', in_or_app. now right.
  - f_equal. induction children as [|m r IHr]; simpl in *; [reflexivity |].
    rewrite IH by (intros el' Hin; apply H, in_or_app; now left).
    f_equal. apply IHr. intros el' Hin. apply H, in_or_app. now right.
Qed.

Lemma traverse_id : forall n, traverse (fun el => el) n = n.
Proof.
  fix IH 1. intros [el inner | ty d children]; simpl; f_equal.
  - induction inner as [|m r IHr]; simpl; [reflexivity |]. now rewrite IH, IHr.
  - induction children as [|m r IHr]; simpl; [reflexivity |]. now rewrite IH, IHr.
Qed.

Section VisitorFacts.

Variable pathRelative : string -> string -> string.
Variables (filename name rootDir : string).
Variables (useRelativePaths injectReactSource : bool).

(** X15: the token the visitor writes is the one the runtime reads: an
    element with a position and without the attribute gets exactly one
    attribute of that name, and on any DOM element that carries its value
    [getElementSourceLocation] finds the file path, line and column the
    visitor saw (for a file path that is not empty and has no line
    terminator). *)
Theorem stamped_value_decodes (node : JSXOpeningElement) (line column : N) :
  let visit :=
    visitor pathRelative filename name useRelativePaths rootDir injectReactSource in
  let filePath := if useRelativePaths then pathRelative rootDir filename else filename in
  let token := encodeLocation filePath (Int line) (Int column) in
  loc node = Some (line, column) ->
  existsb (isNamed name) (attributes node) = false ->
  filePath <> "" -> Str.forallb dot filePath = true ->
  named name (attributes (visit node))
  = [JSXAttribute (JSXIdentifier name) (Some (StringLiteral token))] /\
  forall element : gmap string string,
    element !! name = Some token ->
    getElementSourceLocation element name
    = Some (mkLoc filePath (Int line) (Int column) token).
Proof.
  intros visit filePath token Hloc Hnone Hne Hdot. split.
  - subst visit. unfold visitor. rewrite Hloc, Hnone, truthy_encodeLocation.
    fold filePath. fold token. cbn [negb andb].
    set (located := JSXAttribute (JSXIdentifier name) (Some (StringLiteral token))).
    assert (isNamed name located = true) as Hl by apply String.eqb_refl.
    assert (named name (attributes node ++ [located]) = [located]) as Hbase.
    { unfold named. rewrite filter_app_list, (filter_none _ _ Hnone).
      cbn [List.filter app]. now rewrite Hl. }
    destruct injectReactSource; cbn [attributes]; [| exact Hbase].
    destruct (existsb (isNamed "__source") (attributes node ++ [located])) eqn:Hs;
      cbn [negb attributes]; [exact Hbase |].
    unfold named in *. rewrite filter_app_list, Hbase. cbn [List.filter isNamed].
    destruct (String.eqb "__source" name) eqn:E; [| reflexivity].
    apply String.eqb_eq in E. subst name.
    rewrite existsb_app in Hs. cbn [existsb] in Hs. rewrite Hl in Hs.
    rewrite orb_true_r in Hs. discriminate.
  - intros element Hel. unfold getElementSourceLocation. rewrite Hel.
    pose proof (parse_encode filePath line column Hne Hdot) as Hp. fold token in Hp.
    destruct token as [|c t] eqn:Ht; [| exact Hp].
    unfold parseSourceLocation in Hp. discriminate.
Qed.

(** X16: after the traversal every opening element that has a position
    carries the location attribute, and a [__source] attribute when
    [injectReactSource] is set; the elements, their tags and positions
    and every other node are where they were, and traversing the result
    again changes nothing. *)
Theorem traverse_stamps_all (ast : Node) :
  let visit :=
    visitor pathRelative filename name useRelativePaths rootDir injectReactSource in
  (forall el, In el (openings (traverse visit ast)) -> loc el <> None ->
     existsb (isNamed name) (attributes el) = true /\
     (injectReactSource = true ->
      existsb (isNamed "__source") (attributes el) = true)) /\
  map tag (openings (traverse visit ast)) = map tag (openings ast) /\
  map loc (openings (traverse visit ast)) = map loc (openings ast) /\
  traverse visit (traverse visit ast) = traverse visit ast.
Proof.
  intros visit.
  assert (forall el, tag (visit el) = tag el /\ loc (visit el) = loc el) as Hkeep.
  { intros el. subst visit. unfold visitor.
    destruct (loc el) as [[l c]|] eqn:E; [| now rewrite E]. now cbn. }
  assert (forall el, loc el <> None ->
            (existsb (isNamed name) (attributes (visit el)) = true /\
             (injectReactSource = true ->
              existsb (isNamed "__source") (attributes (visit el)) = true)) /\
            visit (visit el) = visit el) as Hdone.
  { intros el Hl. destruct (loc el) as [pos|] eqn:E; [| contradiction].
    rewrite <- (relocate_same pos el E).
    destruct (visited_has pathRelative filename name rootDir useRelativePaths
                injectReactSource pos el) as (Ha & Hsrc & _ & Hp).
    split; [split; [exact Ha | exact Hsrc] |].
    pose proof (visitor_twice pathRelative filename name rootDir useRelativePaths
                  injectReactSource pos pos el) as Ht.
    now rewrite (relocate_same pos _ Hp) in Ht. }
  rewrite traverse_openings. split; [| split; [| split]].
  - intros el Hin Hl. apply in_map_iff in Hin as (el0 & <- & _).
    apply Hdone. now rewrite <- (proj2 (Hkeep el0)).
  - rewrite map_map. apply map_ext. intros el. apply Hkeep.
  - rewrite map_map. apply map_ext. intros el. apply Hkeep.
  - rewrite <- (traverse_id (traverse visit ast)) at 2.
    apply traverse_ext. intros el Hin.
    rewrite traverse_openings in Hin. apply in_map_iff in Hin as (el0 & <- & _).
    destruct (loc el0) as [pos|] eqn:E.
    + apply Hdone. now rewrite E.
    + assert (visit el0 = el0) as -> by (subst visit; unfold visitor; now rewrite E).
      subst visit. unfold visitor. now rewrite E.
Qed.

End VisitorFacts.

Lemma stamped_value_decodes_witness :
  let visited :=
    visitor noRelative "/app/Button.tsx" "data-insp-path" false "/app" false
      (mkOpening "button" [] (Some (3, 4)%N)) in
  named "data-insp-path" (attributes visited)
  = [JSXAttribute (JSXIdentifier "data-insp-path")
       (Some (StringLiteral "/app/Button.tsx:3:4"))].
Proof.
  exact (proj1 (stamped_value_decodes noRelative "/app/Button.tsx" "data-insp-path"
                  "/app" false false (mkOpening "button" [] (Some (3, 4)%N)) 3 4
                  eq_refl eq_refl ltac:(discriminate) eq_refl)).
Defined.

(** * Locations of components, and the auto-injection script *)

(** X17: whichever source [getComponentSourceLocation] takes the location
    from (debug info, the legacy [__source] data or the host node), its
    [raw] is a token that decodes to that very location, provided the file is
    not empty and has no line terminator, and line and column are
    non-negative integers below [2^53]. *)
Theorem component_location_round_trip (component : Component) (location : SourceLocation) :
  getComponentSourceLocation component = Some location ->
  file location <> "" -> Str.forallb dot (file location) = true ->
  isSafeInteger (line location) = true -> isSafeInteger (column location) = true ->
  parseSourceLocation (raw location) = Some location.
Proof.
  intros H Hf Hd Hl Hc.
  assert (forall f l c,
            location = mkLoc f l c (encodeLocation f l c) ->
            parseSourceLocation (raw location) = Some location) as Hbuilt.
  { intros f l c ->. cbn [file line column raw] in *.
    destruct l as [l|]; [| discriminate]. destruct c as [c|]; [| discriminate].
    now apply parse_encode. }
  assert (forall node,
            getElementSourceLocation node DEFAULT_ATTRIBUTE = Some location ->
            parseSourceLocation (raw location) = Some location) as Hnode.
  { intros node Hn. unfold getElementSourceLocation in Hn.
    destruct (node !! DEFAULT_ATTRIBUTE) as [[|c t]|]; try discriminate.
    assert (raw location = String c t) as ->; [| exact Hn].
    unfold parseSourceLocation in Hn.
    destruct (matchStart locationRe (String c t)) as [[rest [|f [|l [|c' [|]]]]]|];
      try discriminate.
    now inversion Hn. }
  assert (match _debugSource component with
          | Some src =>
              Some {| file := fileName src; line := lineNumber src;
                      column := columnOrZero (columnNumber src);
                      raw := encodeLocation (fileName src) (lineNumber src)
                               (columnOrZero (columnNumber src)) |}
          | None =>
              match _hostNode component with
              | Some node => getElementSourceLocation node DEFAULT_ATTRIBUTE
              | None => None
              end
          end = Some location ->
          parseSourceLocation (raw location) = Some location) as Hrest.
  { destruct (_debugSource component) as [src|].
    - intros E. injection E as E. eapply Hbuilt. symmetry. exact E.
    - destruct (_hostNode component) as [node|]; [apply Hnode | discriminate]. }
  unfold getComponentSourceLocation in H.
  destruct (_debugInfo component) as [info|]; [| now apply Hrest].
  destruct (di_fileName info) as [[|c t]|]; try (now apply Hrest).
  destruct (di_lineNumber info) as [l|]; [| now apply Hrest].
  destruct (numberTruthy l); [| now apply Hrest].
  injection H as H. eapply Hbuilt. symmetry. exact H.
Qed.

Lemma component_location_round_trip_witness :
  parseSourceLocation "/a/B.tsx:7:0"
  = Some (mkLoc "/a/B.tsx" (Int 7) (Int 0) "/a/B.tsx:7:0").
Proof.
  exact (component_location_round_trip
           (mkComponent (Some (mkDebugInfo (Some "/a/B.tsx") (Some (Int 7)) None)) None None)
           (mkLoc "/a/B.tsx" (Int 7) (Int 0) "/a/B.tsx:7:0")
           eq_refl ltac:(discriminate) eq_refl eq_refl eq_refl).
Defined.

(** X18: the auto-injection script always passes [editor],
    [enabledByDefault], [attributeName] and [styles], so for the session it
    starts these four come from [window.__TURBOPACK_SOURCE_CONFIG__] or the
    built-in defaults and never from the loader's configuration; the two
    keys it does not pass, [tooltipPathDisplay] and [showInstructions], are
    the loader's. *)
Theorem auto_inject_overrides_loader (global : option TurbopackSourceConfig) (p : Page) :
  let s := sessionOf (autoInjectConfig global) p in
  s_editor s = editorOrVscode (global ≫= tc_editor) /\
  s_attributeName s = orElse (global ≫= tc_attributeName) "data-insp-path" /\
  s_defaultStyles s = defaultStyles (default noStyles (global ≫= tc_styles)) /\
  mergedEnabledByDefault (autoInjectConfig global) p
  = default false (global ≫= tc_enabledByDefault) /\
  s_tooltipPathDisplay s = loaderTooltipPathDisplay p /\
  mergedShowInstructions (autoInjectConfig global) p = loaderShowInstructions p.
Proof.
  unfold sessionOf, mergedEnabledByDefault, loaderTooltipPathDisplay,
    mergedShowInstructions, loaderShowInstructions, autoInjectConfig, mergeConfig.
  destruct global as [[e b a st]|]; cbn;
    repeat split; try reflexivity;
    try (now destruct a as [[|c t]|]);
    now destruct (getGazeConfig p) as [? ? ? [] ? ?].
Qed.

(** * Display paths *)

Lemma many_complete (p : ascii -> bool) (u v : string) k r :
  Str.forallb p u = true -> k v = Some r -> exists r', many p (u +:+ v) k = Some r'.
Proof.
  induction u as [|c u IH]; intros Hu Hk.
  - rewrite append_nil_l. destruct v as [|x v]; simpl; [eauto |].
    destruct (p x); [| eauto]. destruct (many p v k); eauto.
  - rewrite append_cons. simpl in *. apply andb_prop in Hu as [Hc Hu].
    rewrite Hc. destruct (IH Hu Hk) as (r' & ->). eauto.
Qed.

Lemma exec_position_found (dl dc t : string) caps k r :
  dl <> "" -> Str.forallb isDigit dl = true ->
  dc <> "" -> Str.forallb isDigit dc = true ->
  k "" caps = Some r ->
  exec positionRe (":" +:+ dl +:+ ":" +:+ dc) caps k = Some r.
Proof.
  intros Hl Hld Hc Hcd Hk.
  destruct dl as [|l0 dl]; [contradiction |].
  destruct dc as [|c0 dc]; [contradiction |].
  simpl in Hld, Hcd.
  apply andb_prop in Hld as [Hl0 Hld]. apply andb_prop in Hcd as [Hc0 Hcd].
  str_norm.
  cbn [positionRe Lit Plus exec]. unfold isChar. rewrite Ascii.eqb_refl, Hl0.
  apply many_stop; [exact Hld | exact colon_not_digit |].
  rewrite Ascii.eqb_refl, Hc0.
  rewrite <- (append_nil_r dc) at 1.
  apply many_stop; [exact Hcd | exact I | exact Hk].
Qed.

Lemma exec_position_inv (v : string) caps k r :
  exec positionRe v caps k = Some r ->
  exists dl dc t,
    v = ":" +:+ dl +:+ ":" +:+ dc +:+ t /\
    dl <> "" /\ Str.forallb isDigit dl = true /\
    dc <> "" /\ Str.forallb isDigit dc = true /\
    k t caps = Some r.
Proof.
  cbn [positionRe Lit Plus exec]. unfold isChar. intros H.
  destruct v as [|x v]; [discriminate |].
  destruct (Ascii.eqb ":" x) eqn:Hx; [| discriminate].
  apply Ascii.eqb_eq in Hx. subst x.
  destruct v as [|l0 v]; [discriminate |].
  destruct (isDigit l0) eqn:Hl0; [| discriminate].
  apply many_inv in H as (u1 & w & -> & Hu1 & H).
  destruct w as [|y w]; [discriminate |].
  destruct (Ascii.eqb ":" y) eqn:Hy; [| discriminate].
  apply Ascii.eqb_eq in Hy. subst y.
  destruct w as [|c0 w]; [discriminate |].
  destruct (isDigit c0) eqn:Hc0; [| discriminate].
  apply many_inv in H as (u2 & z & -> & Hu2 & H).
  exists (String l0 u1), (String c0 u2), z.
  repeat split; try discriminate.
  - simpl. now rewrite Hl0.
  - simpl. now rewrite Hc0.
  - exact H.
Qed.

Lemma consumed_all (s : string) : Str.consumed s "" = s.
Proof. rewrite <- (append_nil_r s) at 1. apply consumed_append. Qed.

(** What [displayRe] matches at a given start: the whole rest of the
    string, when that is a slash-free name followed by a position. *)
Lemma matchStart_display_inv (s rest : string) (caps : list string) :
  matchStart displayRe s = Some (rest, caps) ->
  rest = "" /\ caps = [s] /\
  exists n dl dc,
    s = n +:+ ":" +:+ dl +:+ ":" +:+ dc /\
    n <> "" /\ noSlash n = true /\
    dl <> "" /\ Str.forallb isDigit dl = true /\
    dc <> "" /\ Str.forallb isDigit dc = true.
Proof.
  unfold matchStart.
  change displayRe
    with (Seq (Group (Seq (Plus (fun c => negb (isSlash c))) positionRe)) Eos).
  cbn [exec Plus]. intros H.
  destruct s as [|c s]; [discriminate |].
  destruct (negb (isSlash c)) eqn:Hc; [| discriminate].
  apply many_inv in H as (u & v & -> & Hu & H).
  apply exec_position_inv in H as (dl & dc & t & -> & Hl & Hld & Hc' & Hcd & H).
  destruct t as [|t0 t]; [| discriminate].
  inversion H; subst. rewrite consumed_all, (append_nil_r dc).
  split; [reflexivity |]. split; [reflexivity |].
  exists (String c u), dl, dc.
  repeat split; try assumption; try discriminate.
  unfold noSlash. simpl. now rewrite Hc.
Qed.

Lemma matchStart_display_found (n dl dc : string) :
  n <> "" -> noSlash n = true ->
  dl <> "" -> Str.forallb isDigit dl = true ->
  dc <> "" -> Str.forallb isDigit dc = true ->
  matchStart displayRe (n +:+ ":" +:+ dl +:+ ":" +:+ dc)
  = Some ("", [n +:+ ":" +:+ dl +:+ ":" +:+ dc]).
Proof.
  intros Hn Hns Hl Hld Hc Hcd.
  assert (exists r, matchStart displayRe (n +:+ ":" +:+ dl +:+ ":" +:+ dc) = Some r)
    as ([rest caps] & Hr).
  { unfold matchStart.
    change displayRe
      with (Seq (Group (Seq (Plus (fun c => negb (isSlash c))) positionRe)) Eos).
    destruct n as [|n0 n]; [contradiction |].
    unfold noSlash in Hns. simpl in Hns. apply andb_prop in Hns as [Hn0 Hns].
    rewrite append_cons. cbn [exec Plus]. rewrite Hn0.
    eapply many_complete; [exact Hns |].
    apply exec_position_found; try assumption. reflexivity. }
  rewrite Hr. destruct (matchStart_display_inv _ _ _ Hr) as (-> & -> & _).
  reflexivity.
Qed.

Lemma search_inv (r : regex) (s : string) m :
  search r s = Some m -> exists t, suffix_of t s /\ matchStart r t = Some m.
Proof.
  induction s as [|c s IH]; simpl; intros H.
  - destruct (matchStart r "") eqn:E; [| discriminate].
    inversion H; subst. exists "". split; [apply suffix_of_refl | exact E].
  - destruct (matchStart r (String c s)) eqn:E.
    + inversion H; subst. exists (String c s). split; [apply suffix_of_refl | exact E].
    + destruct (IH H) as (t & Ht & Hm). exists t. split; [now apply suffix_of_tail | exact Hm].
Qed.

Lemma search_start (r : regex) (s : string) m :
  matchStart r s = Some m -> search r s = Some m.
Proof. intros H. destruct s; simpl; now rewrite H. Qed.

Lemma search_found (r : regex) (u t : string) m :
  matchStart r t = Some m -> exists m', search r (u +:+ t) = Some m'.
Proof.
  intros H. induction u as [|c u IH].
  - rewrite append_nil_l. exists m. destruct t; simpl in *; now rewrite H.
  - rewrite append_cons. simpl.
    destruct (matchStart r (String c (u +:+ t))); [eauto |]. exact IH.
Qed.

Lemma split_free (s : string) : noSlash s = true -> split isSlash s = [s].
Proof.
  unfold noSlash. induction s as [|c s IH]; simpl; [reflexivity |].
  intros H. apply andb_prop in H as [Hc Hs]. apply negb_true_iff in Hc.
  now rewrite Hc, (IH Hs).
Qed.

Lemma split_nonempty (s : string) : split isSlash s <> [].
Proof.
  destruct s as [|c s]; simpl; [discriminate |].
  destruct (isSlash c); [discriminate |]. now destruct (split isSlash s).
Qed.

Lemma split_app (x y : string) (c : ascii) :
  isSlash c = true ->
  split isSlash (x +:+ String c y) = split isSlash x ++ split isSlash y.
Proof.
  intros Hc. induction x as [|a x IH].
  - rewrite append_nil_l. simpl. now rewrite Hc.
  - rewrite append_cons. simpl. rewrite IH.
    destruct (isSlash a); [reflexivity |].
    pose proof (split_nonempty x) as Hx.
    destruct (split isSlash x) as [|h r]; [contradiction | reflexivity].
Qed.

Lemma lastChar_split (s : string) (c : ascii) :
  lastChar s = Some c -> exists d, s = d +:+ String c "".
Proof.
  induction s as [|a s IH]; [discriminate |].
  destruct s as [|b s].
  - intros H. inversion H; subst. now exists "".
  - intros H. destruct (IH H) as (d & E). exists (String a d).
    rewrite append_cons. now rewrite <- E.
Qed.

Lemma lastChar_none (s : string) : lastChar s = None -> s = "".
Proof.
  induction s as [|a s IH]; [reflexivity |].
  destruct s as [|b s]; [discriminate |].
  intros H. specialize (IH H). discriminate.
Qed.

(** The parts of [dir parent / token]. *)
Lemma split_path (dir parent token : string) (sep : ascii) :
  isDirectory dir = true -> noSlash parent = true -> isSlash sep = true ->
  noSlash token = true ->
  exists front,
    split isSlash (dir +:+ parent +:+ String sep token) = front ++ [parent; token].
Proof.
  intros Hdir Hp Hsep Ht.
  rewrite <- append_assoc, split_app, (split_free token Ht) by exact Hsep.
  unfold isDirectory in Hdir. destruct (lastChar dir) as [c|] eqn:E.
  - destruct (lastChar_split dir c E) as (d & ->).
    rewrite append_assoc. rewrite append_cons, append_nil_l.
    rewrite split_app, (split_free parent Hp) by exact Hdir.
    exists (split isSlash d). now rewrite <- app_assoc.
  - rewrite (lastChar_none dir E), append_nil_l, (split_free parent Hp). now exists [].
Qed.

(** The rule of the relative display: the last directory, a slash and the
    last part of the path. *)
Lemma display_relative_rule (dir parent token name dl dc : string) (sep : ascii) :
  isDirectory dir = true -> noSlash parent = true -> isSlash sep = true ->
  token = name +:+ ":" +:+ dl +:+ ":" +:+ dc ->
  name <> "" -> noSlash name = true ->
  dl <> "" -> Str.forallb isDigit dl = true ->
  dc <> "" -> Str.forallb isDigit dc = true ->
  getDisplayPath "relative" (dir +:+ parent +:+ String sep token)
  = parent +:+ "/" +:+ token.
Proof.
  intros Hdir Hp Hsep -> Hn Hns Hl Hld Hc Hcd.
  set (token := name +:+ ":" +:+ dl +:+ ":" +:+ dc).
  assert (noSlash token = true) as Ht.
  { unfold token, noSlash in *. rewrite !forallb_append, Hns.
    assert (forall d, Str.forallb isDigit d = true ->
              Str.forallb (fun c => negb (isSlash c)) d = true) as Hd.
    { intros d. apply forallb_impl. intros c.
      destruct c as [[] [] [] [] [] [] [] []]; vm_compute; congruence. }
    now rewrite (Hd dl Hld), (Hd dc Hcd). }
  pose proof (matchStart_display_found name dl dc Hn Hns Hl Hld Hc Hcd) as Hm.
  fold token in Hm.
  destruct (search_found displayRe (dir +:+ parent +:+ String sep "") token _ Hm)
    as ([rest caps] & Hs).
  replace ((dir +:+ parent +:+ String sep "") +:+ token)
    with (dir +:+ parent +:+ String sep token) in Hs
    by (rewrite !append_assoc; now rewrite append_cons, append_nil_l).
  destruct (search_inv _ _ _ Hs) as (t & _ & Hmt).
  destruct (matchStart_display_inv _ _ _ Hmt) as (_ & -> & _).
  unfold getDisplayPath. cbn [String.eqb Ascii.eqb Bool.eqb andb]. rewrite Hs.
  destruct (split_path dir parent token sep Hdir Hp Hsep Ht) as (front & ->).
  rewrite length_app. cbn [length].
  replace (Nat.leb 2 (length front + 2)) with true
    by (symmetry; apply Nat.leb_le; lia).
  replace (length front + 2 - 1) with (length front + 1) by lia.
  replace (length front + 2 - 2) with (length front + 0) by lia.
  rewrite !app_nth2_plus. reflexivity.
Qed.

(** C7: with ['relative'], a path that ends in a separator-free name
    followed by [:line:column] is displayed as its last two parts, the last
    directory and the name with the position, joined by a slash; so the
    example token gives [components/Button.tsx:10:5].  With any other
    setting the display path is the token as it is. *)
Theorem display_path :
  (forall dir parent token name dl dc sep,
     isDirectory dir = true -> noSlash parent = true -> isSlash sep = true ->
     token = name +:+ ":" +:+ dl +:+ ":" +:+ dc ->
     name <> "" -> noSlash name = true ->
     dl <> "" -> Str.forallb isDigit dl = true ->
     dc <> "" -> Str.forallb isDigit dc = true ->
     getDisplayPath "relative" (dir +:+ parent +:+ String sep token)
     = parent +:+ "/" +:+ token) /\
  getDisplayPath "relative" "/Users/me/app/components/Button.tsx:10:5"
  = "components/Button.tsx:10:5" /\
  forall setting fullPath : string,
    setting <> "relative" -> getDisplayPath setting fullPath = fullPath.
Proof.
  split; [exact display_relative_rule |]. split.
  - exact (display_relative_rule "/Users/me/app/" "components" "Button.tsx:10:5"
             "Button.tsx" "10" "5" "/"%char eq_refl eq_refl eq_refl eq_refl
             ltac:(discriminate) eq_refl ltac:(discriminate) eq_refl
             ltac:(discriminate) eq_refl).
  - intros setting fullPath H. unfold getDisplayPath.
    apply String.eqb_neq in H. now rewrite H.
Qed.

Lemma display_path_witness :
  getDisplayPath "relative" "/Users/me/app/components/Button.tsx:10:5"
  = "components/Button.tsx:10:5" /\
  getDisplayPath "absolute" "/Users/me/app/components/Button.tsx:10:5"
  = "/Users/me/app/components/Button.tsx:10:5".
Proof.
  split.
  - exact (proj1 display_path "/Users/me/app/" "components" "Button.tsx:10:5"
             "Button.tsx" "10" "5" "/"%char eq_refl eq_refl eq_refl eq_refl
             ltac:(discriminate) eq_refl ltac:(discriminate) eq_refl
             ltac:(discriminate) eq_refl).
  - exact (proj2 (proj2 display_path) "absolute"
             "/Users/me/app/components/Button.tsx:10:5" ltac:(discriminate)).
Defined.

(** X19: with ['relative'], a path whose last part is a name followed by
    [:line:column] is displayed as its last directory, a slash (whatever
    the separator was) and that last part; a path without any separator is
    displayed as it is, and so is one that does not end in a digit. *)
Theorem display_path_relative :
  (forall dir parent token name dl dc sep,
     isDirectory dir = true -> noSlash parent = true -> isSlash sep = true ->
     token = name +:+ ":" +:+ dl +:+ ":" +:+ dc ->
     name <> "" -> noSlash name = true ->
     dl <> "" -> Str.forallb isDigit dl = true ->
     dc <> "" -> Str.forallb isDigit dc = true ->
     getDisplayPath "relative" (dir +:+ parent +:+ String sep token)
     = parent +:+ "/" +:+ token) /\
  (forall fullPath, noSlash fullPath = true ->
     getDisplayPath "relative" fullPath = fullPath) /\
  (forall fullPath,
     match lastChar fullPath with Some c => isDigit c = false | None => True end ->
     getDisplayPath "relative" fullPath = fullPath).
Proof.
  split; [exact display_relative_rule | split].
  - intros fullPath Hns. unfold getDisplayPath.
    cbn [String.eqb Ascii.eqb Bool.eqb andb].
    destruct (search displayRe fullPath) as [[rest caps]|] eqn:Hs; [| reflexivity].
    destruct (search_inv _ _ _ Hs) as (t & [u ->] & Hmt).
    destruct (matchStart_display_inv _ _ _ Hmt)
      as (-> & -> & n & dl & dc & -> & Hn & Hnn & Hl & Hld & Hc & Hcd).
    rewrite (split_free _ Hns). cbn [length Nat.leb].
    assert (matchStart displayRe (u +:+ n +:+ ":" +:+ dl +:+ ":" +:+ dc)
            = Some ("", [u +:+ n +:+ ":" +:+ dl +:+ ":" +:+ dc])) as Hfull.
    { rewrite <- (append_assoc u n).
      apply matchStart_display_found; try assumption.
      - destruct u; [now rewrite append_nil_l | rewrite append_cons; discriminate].
      - unfold noSlash in *. rewrite forallb_append in Hns.
        apply andb_prop in Hns as [Hu _]. rewrite forallb_append. now rewrite Hu, Hnn. }
    assert (search displayRe (u +:+ n +:+ ":" +:+ dl +:+ ":" +:+ dc)
            = Some ("", [u +:+ n +:+ ":" +:+ dl +:+ ":" +:+ dc])) as Hs'.
    { now apply search_start. }
    rewrite Hs' in Hs. congruence.
  - intros fullPath Hlast. unfold getDisplayPath.
    cbn [String.eqb Ascii.eqb Bool.eqb andb].
    destruct (search displayRe fullPath) as [[rest caps]|] eqn:Hs; [| reflexivity].
    exfalso.
    destruct (search_inv _ _ _ Hs) as (t & [u ->] & Hmt).
    destruct (matchStart_display_inv _ _ _ Hmt)
      as (_ & _ & n & dl & dc & -> & _ & _ & _ & _ & Hc & Hcd).
    assert (forall a d, d <> "" -> Str.forallb isDigit d = true ->
              exists c, lastChar (a +:+ d) = Some c /\ isDigit c = true) as Hend.
    { intros a d Hd Hdd. induction a as [|x a IH].
      - rewrite append_nil_l. induction d as [|y d IHd]; [contradiction |].
        simpl in Hdd. apply andb_prop in Hdd as [Hy Hdd].
        destruct d as [|z d]; [exists y; auto |].
        destruct IHd as (c & E & Hcd'); [discriminate | exact Hdd |].
        exists c. split; [exact E | exact Hcd'].
      - destruct IH as (c & E & Hcd'). exists c. split; [| exact Hcd'].
        rewrite append_cons. simpl. rewrite E.
        destruct (a +:+ d) eqn:Ead; [discriminate | reflexivity]. }
    destruct (Hend (u +:+ n +:+ ":" +:+ dl +:+ ":") dc Hc Hcd) as (c & E & Hd).
    rewrite !append_assoc in E. rewrite E in Hlast. congruence.
Qed.

Lemma display_path_relative_witness :
  getDisplayPath "relative" "C:\proj\src\components\Button.tsx:10:5"
  = "components/Button.tsx:10:5".
Proof.
  exact (proj1 display_path_relative "C:\proj\src\" "components" "Button.tsx:10:5"
           "Button.tsx" "10" "5" "\"%char eq_refl eq_refl eq_refl eq_refl
           ltac:(discriminate) eq_refl ltac:(discriminate) eq_refl
           ltac:(discriminate) eq_refl).
Defined.

(** * The configuration snippet *)

(** X20: the [autoInject] option is read and never used: it changes
    nothing in what the loader returns, and the snippet is inserted with
    [autoInject: false] as well. *)
Theorem autoInject_has_no_effect (parse : string -> option Node)
    (generate : Node -> option string) (pathRelative : string -> string -> string)
    (process : Process) (resourcePath source : string)
    (production' : option bool) (name : option string) (relativePaths : option bool)
    (root : option string) (reactSource : option bool)
    (a a' : option bool) (e : option EditorOption) (enabled instructions : option bool)
    (display : option PathDisplay) (st : option (list (string * PropertyValue))) :
  turbopackSourceLoader parse generate pathRelative process
    (OptionsObject (mkOptions production' name relativePaths root reactSource
                      (Some (mkRuntime a e enabled instructions display st))))
    resourcePath source
  = turbopackSourceLoader parse generate pathRelative process
      (OptionsObject (mkOptions production' name relativePaths root reactSource
                        (Some (mkRuntime a' e enabled instructions display st))))
      resourcePath source.
Proof. reflexivity. Qed.

Lemma quote_not_space (q : ascii) : isQuote q = true -> isSpace q = false.
Proof. destruct q as [[] [] [] [] [] [] [] []]; vm_compute; congruence. Qed.

Lemma space_not_semicolon (c : ascii) : isSpace c = true -> isChar ";" c = false.
Proof. destruct c as [[] [] [] [] [] [] [] []]; vm_compute; congruence. Qed.

Lemma not_space_not_newline (c : ascii) : isSpace c = false -> isChar "010" c = false.
Proof. destruct c as [[] [] [] [] [] [] [] []]; vm_compute; congruence. Qed.

(** [\s*\n] before a rest that does not go on with white space: the
    repetition gives the line feed back. *)
Lemma many_line_end (ws rest : string) (K : string -> option MatchResult) r :
  Str.forallb isSpace ws = true -> stops isSpace rest ->
  K rest = Some r ->
  many isSpace (ws +:+ nl +:+ rest)
    (fun t => match t with
              | String c t' => if isChar "010" c then K t' else None
              | EmptyString => None
              end) = Some r.
Proof.
  intros Hws Hrest Hk. apply many_longer; [exact Hws |].
  unfold nl. rewrite append_cons, append_nil_l. cbn [many].
  change (isSpace "010") with true. cbv beta iota.
  assert (many isSpace rest
            (fun t => match t with
                      | String c t' => if isChar "010" c then K t' else None
                      | EmptyString => None
                      end) = None) as ->.
  { destruct rest as [|c t]; [reflexivity |]. simpl in Hrest. cbn [many].
    now rewrite Hrest, (not_space_not_newline c Hrest). }
  unfold isChar. now rewrite Ascii.eqb_refl.
Qed.

Lemma semicolon_absent (ws rest : string) (X : string -> option MatchResult) :
  Str.forallb isSpace ws = true ->
  match ws +:+ nl +:+ rest with
  | String c t => if isChar ";" c then X t else None
  | EmptyString => None
  end = None.
Proof.
  intros Hws. destruct ws as [|w ws].
  - rewrite append_nil_l. reflexivity.
  - rewrite append_cons. simpl in Hws. apply andb_prop in Hws as [Hw _].
    now rewrite (space_not_semicolon w Hw).
Qed.

Lemma injectConfig_after_directive (rt : RuntimeOptions) (ws : string) (q1 q2 : ascii)
    (semi ws2 rest : string) :
  Str.forallb isSpace ws = true -> isQuote q1 = true -> isQuote q2 = true ->
  semi = "" \/ semi = ";" ->
  Str.forallb isSpace ws2 = true -> stops isSpace rest ->
  injectConfig rt
    ((ws +:+ String q1 ("use client" +:+ String q2 (semi +:+ ws2 +:+ nl))) +:+ rest)
  = (ws +:+ String q1 ("use client" +:+ String q2 (semi +:+ ws2 +:+ nl)))
    +:+ configScript rt +:+ rest.
Proof.
  intros Hws Hq1 Hq2 Hsemi Hws2 Hrest.
  set (directive := ws +:+ String q1 ("use client" +:+ String q2 (semi +:+ ws2 +:+ nl))).
  assert (matchStart useClientRe (directive +:+ rest)
          = Some (rest, [Str.consumed (directive +:+ rest) rest])) as Hm.
  { unfold matchStart, useClientRe. cbn [exec].
    assert (directive +:+ rest
            = ws +:+ String q1 ("use client" +:+ String q2
                                  (semi +:+ ws2 +:+ nl +:+ rest))) as Hwhole.
    { unfold directive. rewrite !append_assoc. str_norm.
      now rewrite !append_assoc. }
    remember (directive +:+ rest) as whole eqn:Ew.
    rewrite Hwhole at 1.
    apply many_stop; [exact Hws | exact (quote_not_space q1 Hq1) |].
    rewrite Hq1. str_norm. cbn [Lit exec]. unfold isChar at 1 2 3 4 5 6 7 8 9 10.
    cbn [Ascii.eqb Bool.eqb]. rewrite Hq2.
    destruct Hsemi as [-> | ->].
    + rewrite append_nil_l.
      erewrite semicolon_absent by exact Hws2.
      erewrite many_line_end; [reflexivity | exact Hws2 | exact Hrest | reflexivity].
    + str_norm. unfold isChar at 1. rewrite Ascii.eqb_refl.
      erewrite many_line_end; [reflexivity | exact Hws2 | exact Hrest | reflexivity]. }
  unfold injectConfig. rewrite Hm, consumed_append, drop_append. reflexivity.
Qed.

Lemma injectConfig_at_top (rt : RuntimeOptions) (code : string) :
  stops isSpace code -> stops isQuote code ->
  injectConfig rt code = configScript rt +:+ code.
Proof.
  intros Hs Hq. unfold injectConfig.
  assert (matchStart useClientRe code = None) as ->; [| reflexivity].
  unfold matchStart, useClientRe. cbn [exec].
  destruct code as [|c t]; [reflexivity |]. simpl in Hs, Hq.
  cbn [many]. now rewrite Hs, Hq.
Qed.

(** X21: where the generated code starts with a ['use client'] directive
    (after any white space, in either kind of quotes, with or without a
    semicolon) that is followed by a line feed, the snippet is inserted
    right after the line feed that ends the white space behind the
    directive; code that starts with neither white space nor a quote gets
    the snippet at its very top. *)
Theorem snippet_after_directive (rt : RuntimeOptions) :
  (forall (ws : string) (q1 q2 : ascii) (semi ws2 rest : string),
     Str.forallb isSpace ws = true -> isQuote q1 = true -> isQuote q2 = true ->
     semi = "" \/ semi = ";" ->
     Str.forallb isSpace ws2 = true -> stops isSpace rest ->
     let directive :=
       ws +:+ String q1 ("use client" +:+ String q2 (semi +:+ ws2 +:+ nl)) in
     injectConfig rt (directive +:+ rest) = directive +:+ configScript rt +:+ rest) /\
  (forall code,
     stops isSpace code -> stops isQuote code ->
     injectConfig rt code = configScript rt +:+ code).
Proof.
  split.
  - intros ws q1 q2 semi ws2 rest Hws Hq1 Hq2 Hsemi Hws2 Hrest directive.
    now apply injectConfig_after_directive.
  - apply injectConfig_at_top.
Qed.

Lemma snippet_after_directive_witness :
  let rt := mkRuntime None None None None None None in
  injectConfig rt ("'use client';" +:+ nl +:+ "export default 1;")
  = "'use client';" +:+ nl +:+ configScript rt +:+ "export default 1;".
Proof.
  intros rt.
  exact (proj1 (snippet_after_directive rt) "" "'"%char "'"%char ";" "" "export default 1;"
           eq_refl eq_refl eq_refl (or_intror eq_refl) eq_refl eq_refl).
Defined.

(** * Running the loader on its own output *)





(** * The whole way of a click, and elements that arrive later *)





Section ObserverFacts.

Variable validSelector : string -> bool.

Lemma process_Tooltipped (name : string) (sid : nat) (p : Page) :
  Tooltipped name p -> Tooltipped name (processElements validSelector sid p).1.
Proof.
  intros HT. unfold processElements.
  destruct (sessions p !! sid) as [s|] eqn:Hs;
    [| unfold bind, readSession; rewrite Hs; exact HT].
  rewrite (bind_read _ _ _ _ Hs).
  destruct (validSelector (s_attributeName s)); [| exact HT].
  unfold modify, setNodes. cbn [fst nodes]. intros x c t Hx Hn.
  apply list_elem_of_In, in_map_iff in Hx as (x0 & <- & Hx0).
  apply list_elem_of_In in Hx0.
  destruct (decide (name = TOOLTIP_ATTRIBUTE)) as [-> | Hne]; [rewrite Hn; eauto |].
  rewrite stamp_other in Hn by exact Hne.
  rewrite stamp_kept; eauto.
Qed.

Lemma process_tooltips (sid : nat) (s : Session) (p : Page) :
  sessions p !! sid = Some s -> validSelector (s_attributeName s) = true ->
  Tooltipped (s_attributeName s) (processElements validSelector sid p).1.
Proof.
  intros Hs Hv. unfold processElements. rewrite (bind_read _ _ _ _ Hs), Hv.
  unfold modify, setNodes. cbn [fst nodes]. intros x c t Hx Hn.
  apply list_elem_of_In, in_map_iff in Hx as (x0 & <- & _).
  destruct (decide (s_attributeName s = TOOLTIP_ATTRIBUTE)) as [E | Hne].
  - rewrite <- E, Hn. eauto.
  - rewrite stamp_other in Hn by exact Hne. eapply stamp_done. exact Hn.
Qed.

Lemma notify_sessions (l : list (nat * nat)) (p : Page) :
  sessions (fold_left (fun q o => (processElements validSelector o.2 q).1) l p)
  = sessions p.
Proof.
  revert p. induction l as [|o l IH]; intros p; simpl; [reflexivity |].
  rewrite IH. now destruct (process_frame validSelector o.2 p) as (_ & _ & _ & _ & _ & Hs & _).
Qed.

Lemma processElements_nodes (sid : nat) (p : Page) (i : nat) (e : gmap string string) :
  nodes p !! i = Some e ->
  exists e', nodes (processElements validSelector sid p).1 !! i = Some e' /\
             forall k, k ≠ TOOLTIP_ATTRIBUTE -> e' !! k = e !! k.
Proof.
  intros Hi. unfold processElements.
  destruct (sessions p !! sid) as [s|] eqn:Hs;
    [| unfold bind, readSession; rewrite Hs; eauto].
  rewrite (bind_read _ _ _ _ Hs).
  destruct (validSelector (s_attributeName s)); [| eauto].
  unfold modify, setNodes. cbn [fst nodes]. exists (stamp s e).
  split; [now rewrite lookup_map, Hi | intros k; apply stamp_other].
Qed.

Lemma notify_nodes (l : list (nat * nat)) :
  forall (p : Page) (i : nat) (e : gmap string string),
    nodes p !! i = Some e ->
    exists e',
      nodes (fold_left (fun q o => (processElements validSelector o.2 q).1) l p) !! i
      = Some e' /\
      forall k, k ≠ TOOLTIP_ATTRIBUTE -> e' !! k = e !! k.
Proof.
  induction l as [|x l IH]; intros p i e Hi; simpl; [eauto |].
  destruct (processElements_nodes x.2 p i e Hi) as (e1 & H1 & He1).
  destruct (IH _ i e1 H1) as (e2 & H2 & He2).
  exists e2. split; [exact H2 |]. intros k Hk. now rewrite He2, He1.
Qed.

(** X23: an element that arrives while a session is on gets its tooltip:
    after the observers have been notified of an insertion, every element
    of the document with a non-empty location attribute of that session
    carries a tooltip, the new one included. *)
Theorem inserted_element_gets_tooltip (i sid o : nat) (s : Session) (p : Page)
    (el : gmap string string) :
  observers p !! i = Some (o, sid) -> sessions p !! sid = Some s ->
  validSelector (s_attributeName s) = true ->
  let q := step validSelector (Insert el) p in
  (exists j, nodes q !! length (nodes p) = Some j /\
             forall k, k ≠ TOOLTIP_ATTRIBUTE -> j !! k = el !! k) /\
  Tooltipped (s_attributeName s) q.
Proof.
  intros Hobs Hs Hv q. subst q. cbn [step]. unfold notifyObservers.
  set (p0 := setNodes (fun l => l ++ [el]) p).
  assert (observers p0 = observers p) as -> by reflexivity.
  assert (sessions p0 !! sid = Some s) as Hs0 by exact Hs.
  assert (nodes p0 !! length (nodes p) = Some el) as Hnew.
  { unfold p0, setNodes. cbn [nodes]. apply list_lookup_middle. reflexivity. }
  split; [exact (notify_nodes _ _ _ _ Hnew) |].
  apply list_elem_of_split_length in Hobs as (l1 & l2 & -> & _).
  rewrite fold_left_app. cbn [fold_left].
  apply fold_left_preserves; [intros a b; apply process_Tooltipped |].
  cbn [snd]. apply process_tooltips; [| exact Hv].
  now rewrite notify_sessions.
Qed.

End ObserverFacts.

Lemma inserted_element_gets_tooltip_witness :
  let p := (keyboardHandler anySelector 0 true "Z"
              (activate anySelector emptyConfig (freshPage None [])).1).1 in
  Tooltipped "data-insp-path"
    (step anySelector (Insert {[ "data-insp-path" := "/a/B.tsx:3:5" ]}) p).
Proof.
  intros p.
  exact (proj2 (inserted_element_gets_tooltip anySelector 0 0 1
                  (mkSession (Preset "vscode") "data-insp-path" "absolute"
                     (defaultStyles noStyles) true (Some 0) (Some 1))
                  p {[ "data-insp-path" := "/a/B.tsx:3:5" ]}
                  eq_refl eq_refl eq_refl)).
Defined.
